(** * Dynamic stochastic synthesis: the [gendy] and [gendyx] opcodes

    A shallow embedding of Csound's gendy.c (the generator conceived by
    Iannis Xenakis, after Nick Collins's Gendy1) and the properties of its
    distribution sampler, its mirror boundaries, its use of the 31-bit
    generator and its two interpolation policies.

    Numbers.  [MYFLT] is modelled by the rationals [Q] with exact
    arithmetic: every finite floating-point value is a rational, and
    [fmod], the comparisons and the products and sums of values with few
    bits are exact on such values.  The program rounds every other
    operation, which the model does not: a sum the program rounds up to
    2.0 or to 1.0 stays below it here ([small_negative_plus_two],
    [third_three_times]), and two expressions of one real number are one
    rational here and two floating-point values there
    ([Binary64.gendy_interp], [Binary64.gendyx_interp]).  The properties
    below are therefore
    stated on what survives the rounding: the expression a sample or a
    field is computed by, operation for operation; the draws, the index and
    the cells, which are integers or copies; and bounds that rounding to
    nearest keeps.  The lemmas that lead to them, and [unit_exponents_exact],
    are about the exact values.  Equality of samples is stated with [==]
    (equality of rationals as fractions).  [int32] quantities are [Z] with
    the wrap-around written out where the source casts or shifts.

    Memory.  Every [MYFLT*] argument of the opcode structure points to a
    cell owned by the host; the records below hold the contents of these
    cells (distinct cells, no aliasing between arguments), so a write
    through the pointer is a change of the field.  The two auxiliary
    arrays and the output buffer are lists updated by index. *)

From Stdlib Require Import ZArith QArith Qround Lia Lqa List Bool.
From stdpp Require Import base list.

Local Open Scope Z_scope.
Local Open Scope Q_scope.

(** ** Arithmetic of the C types *)

(** MYFLT, the sample type of Csound. *)
Abbreviation MYFLT := Q (only parsing).

(** [x < y] on MYFLT as a boolean, for the conditions of the source. *)
Definition Qltb (x y : Q) : bool :=
  (Qnum x * Z.pos (Qden y) <? Qnum y * Z.pos (Qden x))%Z.

(** Conversion of a MYFLT to a C integer: truncation toward zero.  (The
    conversion is undefined in C when the truncated value does not fit
    the integer type; the model keeps the truncated value.) *)
Definition trunc (x : Q) : Z := Z.quot (Qnum x) (Z.pos (Qden x)).

(** [(unsigned)] and [(int32)] of an integer: reduction modulo 2^32 to the
    unsigned, respectively the two's complement, range. *)
Definition uint32 (z : Z) : Z := (z mod 4294967296)%Z.
Definition int32 (z : Z) : Z := ((z + 2147483648) mod 4294967296 - 2147483648)%Z.

(** Modelled from the spec: FMOD is a macro of Csound's headers that is
    not among the sources; it expands to the C library's [fmod], the
    "mod" of the breakpoint-advance algorithm (steps 6 and 8).  [fmod x y]
    is [x - n*y] with [n] the quotient [x/y] truncated toward zero, so the
    result has the sign of [x] and magnitude below [|y|]; it is exact in
    floating point. *)
Definition FMOD (x y : Q) : Q := x - inject_Z (trunc (x / y)) * y.

Definition BIPOLAR : Z := 2147483647.          (* 0x7FFFFFFF *)
Definition dv2_31 : Q := 1 # 2147483648.       (* 4.656612873077392578125e-10 *)
Definition GENDYMAXCPS : Z := 8192.

(** [(MYFLT)((int32)((unsigned)rnd<<1)-BIPOLAR) * dv2_31]: the draw mapped
    to the bipolar range (lines 66, 94, 119 and 198).  The subtraction is
    taken with the wrap-around of two's complement, on which the source
    relies for the draws from 2^30 upwards. *)
Definition bipolar (rnd : Z) : Q :=
  inject_Z (int32 (int32 (uint32 (Z.shiftl (uint32 rnd) 1)) - BIPOLAR)) * dv2_31.

(** [(MYFLT)rnd * dv2_31]: the draw mapped to the unit range. *)
Definition unipolar (rnd : Z) : Q := inject_Z rnd * dv2_31.

(** ** What the host and the C library provide

    [csoundRand31] (the host's 31-bit generator: it replaces the seed it
    is given by the next value and returns that value), the elementary
    functions of the C library and the constant [PI_F] are not part of
    gendy.c; the development is parametric in them. *)
Class Host := {
  csoundRand31 : Z -> Z;
  ATAN : Q -> Q;
  TAN : Q -> Q;
  LOG : Q -> Q;
  SIN : Q -> Q;
  POWER : Q -> Q -> Q;
  PI_F : Q
}.

(** The fields of CSOUND that gendy.c reads or writes. *)
Record CSOUND := {
  ksmps : Z;
  onedsr : Q;
  randSeed1 : Z
}.

(** ** The distribution sampler and the two mirrors *)

Section Sampler.
Context `{Host}.

(** The clamp of the shape parameter, lines 57-60. *)
Definition clamp_par (a : Q) : Q :=
  if Qltb 1 a then 1 else if Qltb a 0.0001 then 0.0001 else a.

(** [gendy_distribution], lines 54-96.  [case 0] and [default] leave the
    switch and reach the bipolar mapping of lines 94-95. *)
Definition gendy_distribution (which : Z) (a : Q) (rnd : Z) : Q :=
  let a := clamp_par a in
  match which with
  | 1%Z =>
      let c := ATAN (10 * a) in
      let r := bipolar rnd in
      (1 / a) * TAN (c * r) * 0.1
  | 2%Z =>
      let c := 0.5 + 0.499 * a in
      let c := LOG ((1 - c) / c) in
      let r := ((unipolar rnd - 0.5) * 0.998 * a) + 0.5 in
      LOG ((1 - r) / r) / c
  | 3%Z =>
      let c := TAN (1.5692255 * a) in
      let r := TAN (1.5692255 * a * inject_Z rnd * dv2_31) / c in
      (LOG (r * 0.999 + 0.001) * -0.1447648) * 2 - 1
  | 4%Z =>
      let c := SIN (1.5707963 * a) in
      SIN (PI_F * (unipolar rnd - 0.5) * a) / c
  | 5%Z =>
      let c := LOG (1 - 0.999 * a) in
      let r := inject_Z rnd * dv2_31 * 0.999 * a in
      (LOG (1 - r) / c) * 2 - 1
  | 6%Z => a
  | _ => bipolar rnd
  end.

End Sampler.

(** The amplitude mirror, lines 149-157 (and 227-235). *)
Definition mirror_amp (v : Q) : Q :=
  if Qltb v (-1) || Qltb 1 v then
    let v := if Qltb v 0 then v + 4 else v in
    let v := FMOD v 4 in
    if Qltb 1 v then (if Qltb v 3 then 2 - v else v - 4) else v
  else v.

(** The duration mirror, lines 163-166 (and 240-243).  The sum [d + 2] of
    line 166 is exact here; the program rounds it ([Binary64.plus_two]). *)
Definition mirror_dur (d : Q) : Q :=
  if Qltb 1 d then 2 - FMOD d 2
  else if Qltb d 0 then 2 - FMOD (d + 2) 2
  else d.

(** The bounds of the two mirrors. *)
Definition amp_bounds (a : MYFLT) : Prop := -1 <= a /\ a <= 1.
Definition dur_bounds (d : MYFLT) : Prop := 0 <= d /\ d <= 1.

(** Following the spec's words (section 8): the value clamped into
    [lo, hi]. *)
Definition clamp (lo hi p : Q) : Q :=
  if Qltb p lo then lo else if Qltb hi p then hi else p.

(** The clamp of the capacity argument, lines 107-110 (and 186-189): the
    value left in the cell [*p->initcps]. *)
Definition clamp_cps (c : MYFLT) : MYFLT :=
  if Qltb c 1 then 12
  else if Qltb (inject_Z GENDYMAXCPS) c then inject_Z GENDYMAXCPS
  else c.

(** Reading and writing an element of a C array.  Inside the array the
    two are C's; outside (undefined in C) a read gives 0 and a write
    changes nothing. *)
Definition aref (a : list MYFLT) (i : Z) : MYFLT := default 0 (a !! Z.to_nat i).
Definition aset (a : list MYFLT) (i : Z) (v : MYFLT) : list MYFLT :=
  <[Z.to_nat i := v]> a.

(** ** The linear variant: [gendy] *)

Module Linear.

(** The structure GENDY, lines 31-38: the argument cells, the state of the
    generator and the contents of the two auxiliary arrays. *)
Record GENDY := {
  out : list MYFLT;
  kamp : MYFLT; ampdist : MYFLT; durdist : MYFLT; adpar : MYFLT; ddpar : MYFLT;
  minfreq : MYFLT; maxfreq : MYFLT; ampscl : MYFLT; durscl : MYFLT;
  initcps : MYFLT; knum : MYFLT;
  phase : MYFLT; amp : MYFLT; nextamp : MYFLT; dur : MYFLT; speed : MYFLT;
  index : Z; rand : Z;
  memamp : list MYFLT; memdur : list MYFLT
}.

Section Code.
Context `{Host}.

(** The loop of lines 117-122, [cnt] iterations left, from index [i]. *)
Fixpoint init_fill (cnt : nat) (i : Z) (p : GENDY) : GENDY :=
  match cnt with
  | O => p
  | S cnt' =>
      let rand1 := csoundRand31 (rand p) in
      let memamp1 := aset (memamp p) i (bipolar rand1) in
      let rand2 := csoundRand31 rand1 in
      let memdur1 := aset (memdur p) i (unipolar rand2) in
      init_fill cnt' (i + 1)
        {| out := out p;
           kamp := kamp p; ampdist := ampdist p; durdist := durdist p;
           adpar := adpar p; ddpar := ddpar p;
           minfreq := minfreq p; maxfreq := maxfreq p;
           ampscl := ampscl p; durscl := durscl p;
           initcps := initcps p; knum := knum p;
           phase := phase p; amp := amp p; nextamp := nextamp p;
           dur := dur p; speed := speed p;
           index := index p; rand := rand2;
           memamp := memamp1; memdur := memdur1 |}
  end.

(** [gendy_init], lines 98-124.  The clamped capacity is written to the
    cell [*p->initcps]; the host's seed [csound->randSeed1] is advanced
    once and its new value starts the generator of the instance.  AuxAlloc
    gives zeroed arrays (its failure ends the instance and is not
    modelled). *)
Definition gendy_init (cs : CSOUND) (p : GENDY) : CSOUND * GENDY :=
  let cell := clamp_cps (initcps p) in
  let n := trunc cell in
  let seed := csoundRand31 (randSeed1 cs) in
  ({| ksmps := ksmps cs; onedsr := onedsr cs; randSeed1 := seed |},
   init_fill (Z.to_nat n) 0
     {| out := out p;
        kamp := kamp p; ampdist := ampdist p; durdist := durdist p;
        adpar := adpar p; ddpar := ddpar p;
        minfreq := minfreq p; maxfreq := maxfreq p;
        ampscl := ampscl p; durscl := durscl p;
        initcps := cell; knum := knum p;
        phase := 1; amp := 0; nextamp := 0;
        dur := dur p; speed := 100;
        index := 0; rand := seed;
        memamp := replicate (Z.to_nat n) 0;
        memdur := replicate (Z.to_nat n) 0 |}).

(** The breakpoint advance, the body of the [if] of lines 139-169.  The
    local [knum] keeps its clamped value for the rest of the block.  (C's
    [%] is [Z.rem]; it is undefined for [knum = 0], which needs a capacity
    cell below 1, and [gendy_init] leaves none.) *)
Definition gendy_breakpoint (cs : CSOUND) (initcps_ : Z) (minfreq_ maxfreq_ : MYFLT)
    (knum_ : Z) (p : GENDY) : Z * GENDY :=
  let phase1 := phase p - 1 in
  let knum1 := if (initcps_ <? knum_)%Z || (knum_ <? 1)%Z then initcps_ else knum_ in
  let index1 := Z.rem (index p + 1) knum1 in
  let amp1 := nextamp p in
  let rand1 := csoundRand31 (rand p) in
  let dist := gendy_distribution (trunc (ampdist p)) (adpar p) rand1 in
  let nextamp1 := mirror_amp (aref (memamp p) index1 + ampscl p * dist) in
  let memamp1 := aset (memamp p) index1 nextamp1 in
  let rand2 := csoundRand31 rand1 in
  let dist := gendy_distribution (trunc (durdist p)) (ddpar p) rand2 in
  let dur1 := mirror_dur (aref (memdur p) index1 + durscl p * dist) in
  let memdur1 := aset (memdur p) index1 dur1 in
  let speed1 :=
    (minfreq_ + (maxfreq_ - minfreq_) * dur1) * onedsr cs * inject_Z knum1 in
  (knum1,
   {| out := out p;
      kamp := kamp p; ampdist := ampdist p; durdist := durdist p;
      adpar := adpar p; ddpar := ddpar p;
      minfreq := minfreq p; maxfreq := maxfreq p;
      ampscl := ampscl p; durscl := durscl p;
      initcps := initcps p; knum := knum p;
      phase := phase1; amp := amp1; nextamp := nextamp1;
      dur := dur1; speed := speed1;
      index := index1; rand := rand2;
      memamp := memamp1; memdur := memdur1 |}).

(** The [if] statement of lines 138-170: one advance when the phase has
    reached 1, nothing otherwise. *)
Definition gendy_advance (cs : CSOUND) (initcps_ : Z) (minfreq_ maxfreq_ : MYFLT)
    (knum_ : Z) (p : GENDY) : Z * GENDY :=
  if Qle_bool 1 (phase p)
  then gendy_breakpoint cs initcps_ minfreq_ maxfreq_ knum_ p
  else (knum_, p).

(** The value written to [out[n]], line 171, with exact operations; the
    program rounds each of them ([Binary64.gendy_interp]). *)
Definition gendy_interp (p : GENDY) : MYFLT :=
  kamp p * ((1 - phase p) * amp p + phase p * nextamp p).

(** Lines 171-172: the sample is written and the phase moves on, by an
    exact sum; the program rounds it ([Binary64.next_phase]). *)
Definition gendy_emit (n : Z) (p : GENDY) : GENDY :=
  {| out := aset (out p) n (gendy_interp p);
     kamp := kamp p; ampdist := ampdist p; durdist := durdist p;
     adpar := adpar p; ddpar := ddpar p;
     minfreq := minfreq p; maxfreq := maxfreq p;
     ampscl := ampscl p; durscl := durscl p;
     initcps := initcps p; knum := knum p;
     phase := phase p + speed p; amp := amp p; nextamp := nextamp p;
     dur := dur p; speed := speed p;
     index := index p; rand := rand p;
     memamp := memamp p; memdur := memdur p |}.

(** One turn of the loop of lines 137-173. *)
Definition gendy_sample (cs : CSOUND) (initcps_ : Z) (minfreq_ maxfreq_ : MYFLT)
    (n : Z) (knum_ : Z) (p : GENDY) : Z * GENDY :=
  let '(knum1, p1) := gendy_advance cs initcps_ minfreq_ maxfreq_ knum_ p in
  (knum1, gendy_emit n p1).

(** The loop itself: [cnt] samples left, the next one at index [n]. *)
Fixpoint gendy_loop (cs : CSOUND) (initcps_ : Z) (minfreq_ maxfreq_ : MYFLT)
    (cnt : nat) (n : Z) (knum_ : Z) (p : GENDY) : GENDY :=
  match cnt with
  | O => p
  | S cnt' =>
      let '(knum1, p1) := gendy_sample cs initcps_ minfreq_ maxfreq_ n knum_ p in
      gendy_loop cs initcps_ minfreq_ maxfreq_ cnt' (n + 1) knum1 p1
  end.

(** [gendy_process_arate], lines 126-175. *)
Definition gendy_process_arate (cs : CSOUND) (p : GENDY) : GENDY :=
  gendy_loop cs (trunc (initcps p)) (minfreq p) (maxfreq p)
    (Z.to_nat (ksmps cs)) 0 (trunc (knum p)) p.

End Code.
End Linear.

(** ** The curved variant: [gendyx] *)

Module Curved.

(** The structure GENDYX, lines 40-48. *)
Record GENDYX := {
  out : list MYFLT;
  kamp : MYFLT; ampdist : MYFLT; durdist : MYFLT; adpar : MYFLT; ddpar : MYFLT;
  minfreq : MYFLT; maxfreq : MYFLT; ampscl : MYFLT; durscl : MYFLT;
  kcurveup : MYFLT; kcurvedown : MYFLT;
  initcps : MYFLT; knum : MYFLT;
  phase : MYFLT; amp : MYFLT; nextamp : MYFLT; dur : MYFLT; speed : MYFLT;
  index : Z; rand : Z;
  memamp : list MYFLT; memdur : list MYFLT
}.

Section Code.
Context `{Host}.

(** The loop of lines 196-201 (the cast of line 197 is of an [int] to
    [int32] and changes nothing). *)
Fixpoint init_fill (cnt : nat) (i : Z) (p : GENDYX) : GENDYX :=
  match cnt with
  | O => p
  | S cnt' =>
      let rand1 := csoundRand31 (rand p) in
      let memamp1 := aset (memamp p) i (bipolar rand1) in
      let rand2 := csoundRand31 rand1 in
      let memdur1 := aset (memdur p) i (unipolar rand2) in
      init_fill cnt' (i + 1)
        {| out := out p;
           kamp := kamp p; ampdist := ampdist p; durdist := durdist p;
           adpar := adpar p; ddpar := ddpar p;
           minfreq := minfreq p; maxfreq := maxfreq p;
           ampscl := ampscl p; durscl := durscl p;
           kcurveup := kcurveup p; kcurvedown := kcurvedown p;
           initcps := initcps p; knum := knum p;
           phase := phase p; amp := amp p; nextamp := nextamp p;
           dur := dur p; speed := speed p;
           index := index p; rand := rand2;
           memamp := memamp1; memdur := memdur1 |}
  end.

(** [gendyx_init], lines 177-203. *)
Definition gendyx_init (cs : CSOUND) (p : GENDYX) : CSOUND * GENDYX :=
  let cell := clamp_cps (initcps p) in
  let n := trunc cell in
  let seed := csoundRand31 (randSeed1 cs) in
  ({| ksmps := ksmps cs; onedsr := onedsr cs; randSeed1 := seed |},
   init_fill (Z.to_nat n) 0
     {| out := out p;
        kamp := kamp p; ampdist := ampdist p; durdist := durdist p;
        adpar := adpar p; ddpar := ddpar p;
        minfreq := minfreq p; maxfreq := maxfreq p;
        ampscl := ampscl p; durscl := durscl p;
        kcurveup := kcurveup p; kcurvedown := kcurvedown p;
        initcps := cell; knum := knum p;
        phase := 1; amp := 0; nextamp := 0;
        dur := dur p; speed := 100;
        index := 0; rand := seed;
        memamp := replicate (Z.to_nat n) 0;
        memdur := replicate (Z.to_nat n) 0 |}).

(** The breakpoint advance, the body of the [if] of lines 218-246. *)
Definition gendyx_breakpoint (cs : CSOUND) (initcps_ : Z) (minfreq_ maxfreq_ : MYFLT)
    (knum_ : Z) (p : GENDYX) : Z * GENDYX :=
  let phase1 := phase p - 1 in
  let knum1 := if (initcps_ <? knum_)%Z || (knum_ <? 1)%Z then initcps_ else knum_ in
  let index1 := Z.rem (index p + 1) knum1 in
  let amp1 := nextamp p in
  let rand1 := csoundRand31 (rand p) in
  let dist := gendy_distribution (trunc (ampdist p)) (adpar p) rand1 in
  let nextamp1 := mirror_amp (aref (memamp p) index1 + ampscl p * dist) in
  let memamp1 := aset (memamp p) index1 nextamp1 in
  let rand2 := csoundRand31 rand1 in
  let dist := gendy_distribution (trunc (durdist p)) (ddpar p) rand2 in
  let dur1 := mirror_dur (aref (memdur p) index1 + durscl p * dist) in
  let memdur1 := aset (memdur p) index1 dur1 in
  let speed1 :=
    (minfreq_ + (maxfreq_ - minfreq_) * dur1) * onedsr cs * inject_Z knum1 in
  (knum1,
   {| out := out p;
      kamp := kamp p; ampdist := ampdist p; durdist := durdist p;
      adpar := adpar p; ddpar := ddpar p;
      minfreq := minfreq p; maxfreq := maxfreq p;
      ampscl := ampscl p; durscl := durscl p;
      kcurveup := kcurveup p; kcurvedown := kcurvedown p;
      initcps := initcps p; knum := knum p;
      phase := phase1; amp := amp1; nextamp := nextamp1;
      dur := dur1; speed := speed1;
      index := index1; rand := rand2;
      memamp := memamp1; memdur := memdur1 |}).

(** The [if] statement of lines 217-247. *)
Definition gendyx_advance (cs : CSOUND) (initcps_ : Z) (minfreq_ maxfreq_ : MYFLT)
    (knum_ : Z) (p : GENDYX) : Z * GENDYX :=
  if Qle_bool 1 (phase p)
  then gendyx_breakpoint cs initcps_ minfreq_ maxfreq_ knum_ p
  else (knum_, p).

(** Lines 248-251: a negative exponent is replaced by 0 in its cell. *)
Definition clamp_curve (c : MYFLT) : MYFLT := if Qltb c 0 then 0 else c.

(** The exponent chosen at line 252 and the value written to [out[n]] at
    line 253, from the exponents already clamped; the operations are exact,
    the program rounds each of them ([Binary64.gendyx_interp]). *)
Definition gendyx_curve (up down : MYFLT) (p : GENDYX) : MYFLT :=
  if Qltb 0 (nextamp p - amp p) then up else down.

Definition gendyx_interp (up down : MYFLT) (p : GENDYX) : MYFLT :=
  kamp p * (amp p + POWER (phase p) (gendyx_curve up down p) * (nextamp p - amp p)).

(** Lines 248-254: the exponents are clamped in place, the sample is
    written and the phase moves on. *)
Definition gendyx_emit (n : Z) (p : GENDYX) : GENDYX :=
  let up := clamp_curve (kcurveup p) in
  let down := clamp_curve (kcurvedown p) in
  {| out := aset (out p) n (gendyx_interp up down p);
     kamp := kamp p; ampdist := ampdist p; durdist := durdist p;
     adpar := adpar p; ddpar := ddpar p;
     minfreq := minfreq p; maxfreq := maxfreq p;
     ampscl := ampscl p; durscl := durscl p;
     kcurveup := up; kcurvedown := down;
     initcps := initcps p; knum := knum p;
     phase := phase p + speed p; amp := amp p; nextamp := nextamp p;
     dur := dur p; speed := speed p;
     index := index p; rand := rand p;
     memamp := memamp p; memdur := memdur p |}.

(** One turn of the loop of lines 216-255. *)
Definition gendyx_sample (cs : CSOUND) (initcps_ : Z) (minfreq_ maxfreq_ : MYFLT)
    (n : Z) (knum_ : Z) (p : GENDYX) : Z * GENDYX :=
  let '(knum1, p1) := gendyx_advance cs initcps_ minfreq_ maxfreq_ knum_ p in
  (knum1, gendyx_emit n p1).

Fixpoint gendyx_loop (cs : CSOUND) (initcps_ : Z) (minfreq_ maxfreq_ : MYFLT)
    (cnt : nat) (n : Z) (knum_ : Z) (p : GENDYX) : GENDYX :=
  match cnt with
  | O => p
  | S cnt' =>
      let '(knum1, p1) := gendyx_sample cs initcps_ minfreq_ maxfreq_ n knum_ p in
      gendyx_loop cs initcps_ minfreq_ maxfreq_ cnt' (n + 1) knum1 p1
  end.

(** [gendyx_process_arate], lines 205-257. *)
Definition gendyx_process_arate (cs : CSOUND) (p : GENDYX) : GENDYX :=
  gendyx_loop cs (trunc (initcps p)) (minfreq p) (maxfreq p)
    (Z.to_nat (ksmps cs)) 0 (trunc (knum p)) p.

End Code.
End Curved.

(** ** The host around the opcodes

    Between two blocks the host evaluates the control-rate arguments and
    stores them in the argument cells; the capacity argument is init-rate
    and is stored once, before the init function runs. *)

Record Controls := {
  c_kamp : MYFLT; c_ampdist : MYFLT; c_durdist : MYFLT;
  c_adpar : MYFLT; c_ddpar : MYFLT;
  c_minfreq : MYFLT; c_maxfreq : MYFLT;
  c_ampscl : MYFLT; c_durscl : MYFLT;
  c_knum : MYFLT
}.

Module LinearHost.
Import Linear.

(** The control cells of an instance, in the order of the structure. *)
Definition controls (p : GENDY) : Controls :=
  {| c_kamp := kamp p; c_ampdist := ampdist p; c_durdist := durdist p;
     c_adpar := adpar p; c_ddpar := ddpar p;
     c_minfreq := minfreq p; c_maxfreq := maxfreq p;
     c_ampscl := ampscl p; c_durscl := durscl p;
     c_knum := knum p |}.

(** The host stores the control inputs of the coming block. *)
Definition set_controls (k : Controls) (p : GENDY) : GENDY :=
  {| out := out p;
     kamp := c_kamp k; ampdist := c_ampdist k; durdist := c_durdist k;
     adpar := c_adpar k; ddpar := c_ddpar k;
     minfreq := c_minfreq k; maxfreq := c_maxfreq k;
     ampscl := c_ampscl k; durscl := c_durscl k;
     initcps := initcps p; knum := c_knum k;
     phase := phase p; amp := amp p; nextamp := nextamp p;
     dur := dur p; speed := speed p;
     index := index p; rand := rand p;
     memamp := memamp p; memdur := memdur p |}.

Section Run.
Context `{Host}.

(** One block per element of [ks]; the output buffers in order, and the
    instance after the last block. *)
Fixpoint perform (cs : CSOUND) (ks : list Controls) (p : GENDY)
    : list (list MYFLT) * GENDY :=
  match ks with
  | [] => ([], p)
  | k :: ks' =>
      let p1 := gendy_process_arate cs (set_controls k p) in
      let '(outs, p2) := perform cs ks' p1 in
      (out p1 :: outs, p2)
  end.

End Run.
End LinearHost.

Module CurvedHost.
Import Curved.

Definition controls (p : GENDYX) : Controls :=
  {| c_kamp := kamp p; c_ampdist := ampdist p; c_durdist := durdist p;
     c_adpar := adpar p; c_ddpar := ddpar p;
     c_minfreq := minfreq p; c_maxfreq := maxfreq p;
     c_ampscl := ampscl p; c_durscl := durscl p;
     c_knum := knum p |}.

(** The host stores the control inputs of the coming block, the two
    exponents among them. *)
Definition set_controls (k : Controls) (up down : MYFLT) (p : GENDYX) : GENDYX :=
  {| out := out p;
     kamp := c_kamp k; ampdist := c_ampdist k; durdist := c_durdist k;
     adpar := c_adpar k; ddpar := c_ddpar k;
     minfreq := c_minfreq k; maxfreq := c_maxfreq k;
     ampscl := c_ampscl k; durscl := c_durscl k;
     kcurveup := up; kcurvedown := down;
     initcps := initcps p; knum := c_knum k;
     phase := phase p; amp := amp p; nextamp := nextamp p;
     dur := dur p; speed := speed p;
     index := index p; rand := rand p;
     memamp := memamp p; memdur := memdur p |}.

Section Run.
Context `{Host}.

(** One block per element of [ks], the exponents held at [up] and
    [down]. *)
Fixpoint perform (cs : CSOUND) (up down : MYFLT) (ks : list Controls) (p : GENDYX)
    : list (list MYFLT) * GENDYX :=
  match ks with
  | [] => ([], p)
  | k :: ks' =>
      let p1 := gendyx_process_arate cs (set_controls k up down p) in
      let '(outs, p2) := perform cs up down ks' p1 in
      (out p1 :: outs, p2)
  end.

End Run.
End CurvedHost.

(** The two structures hold the same instance: every field they share has
    the same contents (the samples of the buffers as rationals). *)
Definition same_instance (g : Linear.GENDY) (x : Curved.GENDYX) : Prop :=
  Forall2 Qeq (Linear.out g) (Curved.out x) /\
  LinearHost.controls g = CurvedHost.controls x /\
  Linear.initcps g = Curved.initcps x /\
  (Linear.phase g, Linear.amp g, Linear.nextamp g, Linear.dur g, Linear.speed g)
  = (Curved.phase x, Curved.amp x, Curved.nextamp x, Curved.dur x, Curved.speed x) /\
  (Linear.index g, Linear.rand g) = (Curved.index x, Curved.rand x) /\
  (Linear.memamp g, Linear.memdur g) = (Curved.memamp x, Curved.memdur x).

(** An instance in mid-run with a single control point, of amplitude [a]
    and duration [d], its phase at 1 and the control cells holding [k]. *)
Definition one_point_gendy (a d : MYFLT) (k : Controls) : Linear.GENDY :=
  LinearHost.set_controls k
    {| Linear.out := [0; 0];
       Linear.kamp := 0; Linear.ampdist := 0; Linear.durdist := 0;
       Linear.adpar := 0; Linear.ddpar := 0;
       Linear.minfreq := 0; Linear.maxfreq := 0;
       Linear.ampscl := 0; Linear.durscl := 0;
       Linear.initcps := 1; Linear.knum := 0;
       Linear.phase := 1; Linear.amp := a; Linear.nextamp := a;
       Linear.dur := d; Linear.speed := 0.01;
       Linear.index := 0; Linear.rand := 12345;
       Linear.memamp := [a]; Linear.memdur := [d] |}.

(** The two instances agree, and both exponents are 1. *)
Definition unit_pair (g : Linear.GENDY) (x : Curved.GENDYX) : Prop :=
  same_instance g x /\ Curved.kcurveup x = 1 /\ Curved.kcurvedown x = 1.

(** ** The generator register *)

Section Draws.
Context `{Host}.

(** The register after [k] draws from [s]; for [k > 0] also the value of
    the [k]-th draw. *)
Definition draw (k : nat) (s : Z) : Z := Nat.iter k csoundRand31 s.

(** The store and the register after a fill of [capacity] points that
    started from the register [seed]: [2 * capacity] draws were made, and
    point [j] holds draw [2j + 1] as its amplitude and draw [2j + 2] as its
    duration. *)
Definition filled_from (seed : Z) (capacity : nat) (rand_ : Z)
    (memamp_ memdur_ : list MYFLT) : Prop :=
  rand_ = draw (2 * capacity) seed /\
  length memamp_ = capacity /\ length memdur_ = capacity /\
  forall j : nat, (j < capacity)%nat ->
    memamp_ !! j = Some (bipolar (draw (2 * j + 1) seed)) /\
    memdur_ !! j = Some (unipolar (draw (2 * j + 2) seed)).

End Draws.

(** The fields of a curved instance that the linear structure has too. *)
Definition linear_of (x : Curved.GENDYX) : Linear.GENDY :=
  {| Linear.out := Curved.out x;
     Linear.kamp := Curved.kamp x; Linear.ampdist := Curved.ampdist x;
     Linear.durdist := Curved.durdist x;
     Linear.adpar := Curved.adpar x; Linear.ddpar := Curved.ddpar x;
     Linear.minfreq := Curved.minfreq x; Linear.maxfreq := Curved.maxfreq x;
     Linear.ampscl := Curved.ampscl x; Linear.durscl := Curved.durscl x;
     Linear.initcps := Curved.initcps x; Linear.knum := Curved.knum x;
     Linear.phase := Curved.phase x; Linear.amp := Curved.amp x;
     Linear.nextamp := Curved.nextamp x;
     Linear.dur := Curved.dur x; Linear.speed := Curved.speed x;
     Linear.index := Curved.index x; Linear.rand := Curved.rand x;
     Linear.memamp := Curved.memamp x; Linear.memdur := Curved.memdur x |}.

(** ** A concrete host for closed examples *)

(** Modelled from the spec: csoundRand31 belongs to the host and is not
    among the sources.  Section 4.2 asks for a 31-bit linear-congruential
    generator of full period over the non-zero states and leaves the
    multiplier open; this one is x -> 742938285 x mod (2^31 - 1). *)
Definition lehmer31 (s : Z) : Z := ((742938285 * s) mod 2147483647)%Z.

(** The power with the exponent truncated to an integer, a rational
    function that agrees with C's [pow] at integral exponents. *)
Definition pow_int (x y : Q) : Q := Qpower x (trunc y).

(** The examples below select kinds 0 and 6 only, which call no elementary
    function; the identity stands for each of them. *)
Definition example_host : Host :=
  {| csoundRand31 := lehmer31;
     ATAN := fun x => x; TAN := fun x => x; LOG := fun x => x; SIN := fun x => x;
     POWER := pow_int;
     PI_F := 3.14159265358979323846 |}.

(** A host whose generator is the successor function: its register counts
    the draws made from it.  (No elementary function matters for that.) *)
Definition counting_host : Host :=
  {| csoundRand31 := Z.succ;
     ATAN := fun x => x; TAN := fun x => x; LOG := fun x => x; SIN := fun x => x;
     POWER := pow_int;
     PI_F := 3.14159265358979323846 |}.

(** 44100 samples per second, blocks of two samples, host seed 12345. *)
Definition example_csound : CSOUND :=
  {| ksmps := 2; onedsr := 1 # 44100; randSeed1 := 12345 |}.

Definition example_controls : Controls :=
  {| c_kamp := 1; c_ampdist := 0; c_durdist := 0;
     c_adpar := 1; c_ddpar := 1;
     c_minfreq := 220; c_maxfreq := 440;
     c_ampscl := 0.5; c_durscl := 0.5;
     c_knum := 12 |}.

(** The same host with blocks of one sample. *)
Definition one_sample_csound : CSOUND :=
  {| ksmps := 1; onedsr := 1 # 44100; randSeed1 := 12345 |}.

(** Both frequency bounds at three times the sample rate, on one control
    point: every advance sets the speed to 3. *)
Definition fast_controls : Controls :=
  {| c_kamp := 1; c_ampdist := 0; c_durdist := 0;
     c_adpar := 1; c_ddpar := 1;
     c_minfreq := 132300; c_maxfreq := 132300;
     c_ampscl := 0.5; c_durscl := 0.5;
     c_knum := 1 |}.

(** Both perturbations taken from the shape parameter (kind 6, parameter
    1), scaled by [ascl] and [dscl]. *)
Definition passthrough_controls (ascl dscl : MYFLT) : Controls :=
  {| c_kamp := 1; c_ampdist := 6; c_durdist := 6;
     c_adpar := 1; c_ddpar := 1;
     c_minfreq := 220; c_maxfreq := 440;
     c_ampscl := ascl; c_durscl := dscl;
     c_knum := 1 |}.

(** An instance before its init function has run: the capacity argument
    is [cps], the control cells hold [k], the rest is zeroed memory, the
    output buffer has two slots. *)
Definition fresh_gendy (cps : MYFLT) (k : Controls) : Linear.GENDY :=
  LinearHost.set_controls k
    {| Linear.out := [0; 0];
       Linear.kamp := 0; Linear.ampdist := 0; Linear.durdist := 0;
       Linear.adpar := 0; Linear.ddpar := 0;
       Linear.minfreq := 0; Linear.maxfreq := 0;
       Linear.ampscl := 0; Linear.durscl := 0;
       Linear.initcps := cps; Linear.knum := 0;
       Linear.phase := 0; Linear.amp := 0; Linear.nextamp := 0;
       Linear.dur := 0; Linear.speed := 0;
       Linear.index := 0; Linear.rand := 0;
       Linear.memamp := []; Linear.memdur := [] |}.

Definition fresh_gendyx (cps : MYFLT) (k : Controls) (up down : MYFLT)
    : Curved.GENDYX :=
  CurvedHost.set_controls k up down
    {| Curved.out := [0; 0];
       Curved.kamp := 0; Curved.ampdist := 0; Curved.durdist := 0;
       Curved.adpar := 0; Curved.ddpar := 0;
       Curved.minfreq := 0; Curved.maxfreq := 0;
       Curved.ampscl := 0; Curved.durscl := 0;
       Curved.kcurveup := 0; Curved.kcurvedown := 0;
       Curved.initcps := cps; Curved.knum := 0;
       Curved.phase := 0; Curved.amp := 0; Curved.nextamp := 0;
       Curved.dur := 0; Curved.speed := 0;
       Curved.index := 0; Curved.rand := 0;
       Curved.memamp := []; Curved.memdur := [] |}.

(** ** The rounded operations in binary64

    The development computes with exact rationals.  Where the rounding of
    the program matters, the expression is evaluated here in binary64, the
    sample type of the double-precision build, with the primitive floats
    of the kernel. *)

From Stdlib Require PrimFloat.

Module Binary64.
Import PrimFloat.
Local Open Scope float_scope.

(** Line 171, every operation rounded as the program rounds it. *)
Definition gendy_interp (kamp phase amp nextamp : float) : float :=
  kamp * ((1 - phase) * amp + phase * nextamp).

(** Line 253, [pw] being the value of POWER(phase, curve); the C library's
    pow returns its first argument at the exponent 1. *)
Definition gendyx_interp (kamp amp nextamp pw : float) : float :=
  kamp * (amp + pw * (nextamp - amp)).

(** The sum [p->dur + FL(2.0)] of line 166. *)
Definition plus_two (d : float) : float := d + 2.

(** Line 172, the phase moved on by the speed. *)
Definition next_phase (phase speed : float) : float := phase + speed.

Definition near_third : float := 0x1.5555555555555p-2.
Definition small_negative : float := -0x1p-54.
Definition one : float := 1.
Definition two : float := 2.

End Binary64.

(** A host at 32768 samples per second with blocks of two samples, and
    control inputs with both frequency bounds at three times that rate on
    one control point: every quantity of a run under them is a dyadic
    rational of few bits, so the run is the same in binary floating
    point. *)
Definition dyadic_csound : CSOUND :=
  {| ksmps := 2; onedsr := 1 # 32768; randSeed1 := 12345 |}.

Definition dyadic_fast_controls : Controls :=
  {| c_kamp := 1; c_ampdist := 0; c_durdist := 0;
     c_adpar := 1; c_ddpar := 1;
     c_minfreq := 98304; c_maxfreq := 98304;
     c_ampscl := 0.5; c_durscl := 0.5;
     c_knum := 1 |}.

(** ** Notions for the properties of whole blocks *)

From Stdlib Require Import Qabs.

Section Rows.
Context `{Host}.

(** The host generator yields 31-bit values. *)
Definition host31 : Prop := forall s : Z, (0 <= csoundRand31 s < 2147483648)%Z.

(** [n] breakpoint advances in a row, the active count handed on as the
    loop of lines 137-173 hands it on. *)
Fixpoint gendy_breakpoints (cs : CSOUND) (initcps_ : Z) (minfreq_ maxfreq_ : MYFLT)
    (n : nat) (knum_ : Z) (p : Linear.GENDY) : Z * Linear.GENDY :=
  match n with
  | O => (knum_, p)
  | S n' =>
      let '(knum1, p1) :=
        Linear.gendy_breakpoint cs initcps_ minfreq_ maxfreq_ knum_ p in
      gendy_breakpoints cs initcps_ minfreq_ maxfreq_ n' knum1 p1
  end.

End Rows.

(** The active count after the clamp of lines 141-142. *)
Definition clamp_knum (initcps_ knum_ : Z) : Z :=
  if (initcps_ <? knum_)%Z || (knum_ <? 1)%Z then initcps_ else knum_.

(** The two structures hold the same generator: the argument cells, the
    state and the store agree (the output buffers and the exponents are
    left aside). *)
Definition same_state (g : Linear.GENDY) (x : Curved.GENDYX) : Prop :=
  LinearHost.controls g = CurvedHost.controls x /\
  Linear.initcps g = Curved.initcps x /\
  (Linear.phase g, Linear.amp g, Linear.nextamp g, Linear.dur g, Linear.speed g)
  = (Curved.phase x, Curved.amp x, Curved.nextamp x, Curved.dur x, Curved.speed x) /\
  (Linear.index g, Linear.rand g) = (Curved.index x, Curved.rand x) /\
  (Linear.memamp g, Linear.memdur g) = (Curved.memamp x, Curved.memdur x).

(** The stored amplitudes and the two amplitudes of an instance are
    within the bounds of the amplitude mirror. *)
Definition amp_store_bounds (p : Linear.GENDY) : Prop :=
  Forall amp_bounds (Linear.memamp p) /\
  amp_bounds (Linear.amp p) /\ amp_bounds (Linear.nextamp p).

(** Control inputs whose amplitude perturbation is within the reach of the
    amplitude mirror: the kind cell selects the uniform kind (a cell below
    1 or from 7 upwards) and the amplitude scale is within [-4, 4]. *)
Definition uniform_amp_inputs (k : Controls) : Prop :=
  (c_ampdist k < 1 \/ 7 <= c_ampdist k) /\
  -4 <= c_ampscl k /\ c_ampscl k <= 4.

(** The exponent cells of a curved instance set to [up] and [down]. *)
Definition with_curves (up down : MYFLT) (x : Curved.GENDYX) : Curved.GENDYX :=
  {| Curved.out := Curved.out x;
     Curved.kamp := Curved.kamp x; Curved.ampdist := Curved.ampdist x;
     Curved.durdist := Curved.durdist x;
     Curved.adpar := Curved.adpar x; Curved.ddpar := Curved.ddpar x;
     Curved.minfreq := Curved.minfreq x; Curved.maxfreq := Curved.maxfreq x;
     Curved.ampscl := Curved.ampscl x; Curved.durscl := Curved.durscl x;
     Curved.kcurveup := up; Curved.kcurvedown := down;
     Curved.initcps := Curved.initcps x; Curved.knum := Curved.knum x;
     Curved.phase := Curved.phase x; Curved.amp := Curved.amp x;
     Curved.nextamp := Curved.nextamp x;
     Curved.dur := Curved.dur x; Curved.speed := Curved.speed x;
     Curved.index := Curved.index x; Curved.rand := Curved.rand x;
     Curved.memamp := Curved.memamp x; Curved.memdur := Curved.memdur x |}.

(** Control inputs with both frequency bounds at 0: the advance under
    them sets the speed to 0. *)
Definition zero_rate_controls : Controls :=
  {| c_kamp := 1; c_ampdist := 0; c_durdist := 0;
     c_adpar := 1; c_ddpar := 1;
     c_minfreq := 0; c_maxfreq := 0;
     c_ampscl := 0.5; c_durscl := 0.5;
     c_knum := 12 |}.

(** The instance of the concrete host after initialization with 12 points
    and one block under these control inputs. *)
Definition stopped_gendy : Linear.GENDY :=
  let r := Linear.gendy_init (H := example_host) example_csound
             (fresh_gendy 12 zero_rate_controls) in
  Linear.gendy_process_arate (H := example_host) (fst r) (snd r).

(** The instances of the concrete host after initialization with 12
    points and one block of two samples. *)
Definition started_gendy : Linear.GENDY :=
  let r := Linear.gendy_init (H := example_host) example_csound
             (fresh_gendy 12 example_controls) in
  Linear.gendy_process_arate (H := example_host) (fst r) (snd r).

Definition started_gendyx (up down : MYFLT) : Curved.GENDYX :=
  let r := Curved.gendyx_init (H := example_host) example_csound
             (fresh_gendyx 12 example_controls up down) in
  Curved.gendyx_process_arate (H := example_host) (fst r) (snd r).

(** * Properties *)

(** ** Where the program rounds *)

(** A negative duration candidate next to 0: the sum of line 166 is 2.0,
    so [fmod] gives 0 and the mirrored duration is 2.0, where the exact
    sum stays below 2. *)
Example small_negative_plus_two :
  PrimFloat.eqb (Binary64.plus_two Binary64.small_negative) Binary64.two = true.
Proof. vm_compute. reflexivity. Qed.

(** A phase moved on three times by the double nearest to 1/3 reaches
    1.0, where the exact sum stays below 1. *)
Example third_three_times :
  PrimFloat.eqb
    (Binary64.next_phase
       (Binary64.next_phase Binary64.near_third Binary64.near_third)
       Binary64.near_third)
    Binary64.one = true.
Proof. vm_compute. reflexivity. Qed.

(** ** The arithmetic on given values *)

Example trunc_toward_zero : trunc 2.75 = 2%Z /\ trunc (-2.75) = (-2)%Z.
Proof. split; reflexivity. Qed.

Example FMOD_keeps_sign :
  FMOD 5.5 4 == 1.5 /\ FMOD (-2) 4 == -2 /\ FMOD (-5) 4 == -1 /\ FMOD 2 2 == 0.
Proof. repeat split. Qed.

Example int32_wraps :
  int32 2147483648 = (-2147483648)%Z /\ int32 4294967295 = (-1)%Z /\
  int32 12345 = 12345%Z.
Proof. repeat split. Qed.

Example bipolar_ends :
  bipolar 0 == - (2147483647 # 2147483648) /\
  bipolar 1073741824 == 1 # 2147483648 /\
  bipolar 2147483647 == 2147483647 # 2147483648.
Proof. repeat split. Qed.

Example lehmer31_first : lehmer31 12345 = 1817955635%Z.
Proof. reflexivity. Qed.

(** ** Comparisons, truncation and [fmod] *)

Lemma Qltb_lt (x y : Q) : Qltb x y = true <-> x < y.
Proof. unfold Qltb, Qlt. apply Z.ltb_lt. Qed.

Lemma Qltb_ge (x y : Q) : Qltb x y = false <-> y <= x.
Proof. unfold Qltb, Qle. apply Z.ltb_ge. Qed.

(** Case analysis on a comparison of the source, with the fact it decides
    left in the context. *)
Ltac case_ltb x y :=
  let E := fresh "E" in
  destruct (Qltb x y) eqn:E;
  [apply Qltb_lt in E | apply Qltb_ge in E].

Lemma trunc_nonneg (x : Q) : 0 <= x -> trunc x = Qfloor x.
Proof.
  destruct x as [n d]. unfold trunc, Qfloor, Qle. simpl. intros Hn.
  apply Z.quot_div_nonneg; lia.
Qed.

Lemma trunc_opp (x : Q) : trunc (- x) = (- trunc x)%Z.
Proof. destruct x as [n d]. unfold trunc. simpl. apply Z.quot_opp_l. lia. Qed.

Lemma Qfloor_unit (x : Q) : 0 <= x -> x < 1 -> Qfloor x = 0%Z.
Proof.
  intros H0 H1.
  pose proof (Qfloor_le x) as Hl. pose proof (Qlt_floor x) as Hu.
  assert (inject_Z (Qfloor x) < inject_Z 1) as A
    by (change (inject_Z 1) with 1; lra).
  assert (inject_Z 0 < inject_Z (Qfloor x + 1)) as B
    by (change (inject_Z 0) with 0; lra).
  rewrite <- Zlt_Qlt in A, B. lia.
Qed.

(** A quotient strictly between -1 and 1 truncates to 0. *)
Lemma trunc_small (x : Q) : -1 < x -> x < 1 -> trunc x = 0%Z.
Proof.
  intros Hl Hu. destruct (Qlt_le_dec x 0) as [Hneg | Hpos].
  - assert (trunc (- x) = 0%Z) as A.
    { rewrite trunc_nonneg by lra. apply Qfloor_unit; lra. }
    rewrite trunc_opp in A. lia.
  - rewrite trunc_nonneg by lra. apply Qfloor_unit; lra.
Qed.

(** [fmod] leaves alone what is already below the modulus in magnitude. *)
Lemma FMOD_small (x y : Q) : 0 < y -> - y < x -> x < y -> FMOD x y == x.
Proof.
  intros Hy Hl Hu. unfold FMOD.
  assert (-1 < x / y /\ x / y < 1) as [A B].
  { split.
    - apply Qlt_shift_div_l; lra.
    - apply Qlt_shift_div_r; lra. }
  rewrite (trunc_small _ A B). change (inject_Z 0) with 0. lra.
Qed.

(** On a non-negative argument [fmod] lands in [0, y). *)
Lemma FMOD_range (x y : Q) : 0 < y -> 0 <= x -> 0 <= FMOD x y /\ FMOD x y < y.
Proof.
  intros Hy Hx. unfold FMOD.
  assert (0 <= x / y) as Hq by (apply Qle_shift_div_l; lra).
  rewrite (trunc_nonneg _ Hq).
  pose proof (Qfloor_le (x / y)) as Hl. pose proof (Qlt_floor (x / y)) as Hu.
  rewrite inject_Z_plus in Hu. change (inject_Z 1) with 1 in Hu.
  set (n := inject_Z (Qfloor (x / y))) in *.
  assert (x == (x / y) * y) as E by (field; lra).
  split.
  - assert (n * y <= (x / y) * y) by (apply Qmult_le_compat_r; lra). lra.
  - assert ((x / y) * y < (n + 1) * y) by (apply Qmult_lt_compat_r; lra). lra.
Qed.

(** ** Where the mirrors do keep their bounds *)

(** The amplitude mirror reflects every candidate from -5 upwards into
    [-1, 1]. *)
Lemma mirror_amp_range (v : Q) : -5 <= v -> -1 <= mirror_amp v /\ mirror_amp v <= 1.
Proof.
  intros Hv. unfold mirror_amp.
  assert (forall w, 0 <= w -> w < 4 ->
            -1 <= (if Qltb 1 w then if Qltb w 3 then 2 - w else w - 4 else w) /\
            (if Qltb 1 w then if Qltb w 3 then 2 - w else w - 4 else w) <= 1) as fold.
  { intros w H0 H4. case_ltb 1 w; [case_ltb w 3|]; lra. }
  case_ltb v (-1); [|case_ltb 1 v]; simpl orb; cbv beta iota zeta; [| |lra].
  - case_ltb v 0; [|lra].
    destruct (Qlt_le_dec (v + 4) 0) as [Hneg | Hpos].
    + pose proof (FMOD_small (v + 4) 4) as Hs.
      set (w := FMOD (v + 4) 4) in *.
      assert (w == v + 4) as Ew by (apply Hs; lra).
      case_ltb 1 w; [lra|lra].
    + destruct (FMOD_range (v + 4) 4) as [A B]; [lra|lra|]. now apply fold.
  - case_ltb v 0; [lra|].
    destruct (FMOD_range v 4) as [A B]; [lra|lra|]. now apply fold.
Qed.

(** The duration mirror reflects every candidate of [-1, 2) into [0, 1]. *)
Lemma mirror_dur_range (d : Q) : -1 <= d -> d < 2 -> 0 <= mirror_dur d /\ mirror_dur d <= 1.
Proof.
  intros Hl Hu. unfold mirror_dur.
  case_ltb 1 d; [|case_ltb d 0]; [| |lra].
  - pose proof (FMOD_small d 2) as Hs. set (w := FMOD d 2) in *.
    assert (w == d) by (apply Hs; lra). lra.
  - pose proof (FMOD_small (d + 2) 2) as Hs. set (w := FMOD (d + 2) 2) in *.
    assert (w == d + 2) by (apply Hs; lra). lra.
Qed.

(** A value already inside the bounds passes a mirror unchanged. *)
Lemma mirror_amp_inside (v : Q) : -1 <= v -> v <= 1 -> mirror_amp v = v.
Proof.
  intros Hl Hu. unfold mirror_amp.
  case_ltb v (-1); [lra|]. case_ltb 1 v; [lra|]. reflexivity.
Qed.

Lemma mirror_dur_inside (d : Q) : 0 <= d -> d <= 1 -> mirror_dur d = d.
Proof.
  intros Hl Hu. unfold mirror_dur.
  case_ltb 1 d; [lra|]. case_ltb d 0; [lra|]. reflexivity.
Qed.

(** ** Where the mirrors lose their bounds *)

Lemma Qfloor_one (x : Q) : 1 <= x -> x < 2 -> Qfloor x = 1%Z.
Proof.
  intros H1 H2.
  pose proof (Qfloor_le x) as Hl. pose proof (Qlt_floor x) as Hu.
  assert (inject_Z (Qfloor x) < inject_Z 2) as A
    by (change (inject_Z 2) with 2; lra).
  assert (inject_Z 1 < inject_Z (Qfloor x + 1)) as B
    by (change (inject_Z 1) with 1; lra).
  rewrite <- Zlt_Qlt in A, B. lia.
Qed.

(** In the second period [fmod] takes the modulus off once. *)
Lemma FMOD_second (x y : Q) : 0 < y -> y <= x -> x < 2 * y -> FMOD x y == x - y.
Proof.
  intros Hy Hl Hu. unfold FMOD.
  assert (1 <= x / y /\ x / y < 2) as [A B].
  { split.
    - apply Qle_shift_div_l; lra.
    - apply Qlt_shift_div_r; lra. }
  rewrite trunc_nonneg by lra. rewrite (Qfloor_one _ A B).
  change (inject_Z 1) with 1. lra.
Qed.

(** A duration candidate of [2, 3) comes out of the mirror above 1. *)
Lemma mirror_dur_beyond (d : Q) : 2 <= d -> d < 3 -> 1 < mirror_dur d.
Proof.
  intros Hl Hu. unfold mirror_dur. case_ltb 1 d; [|lra].
  pose proof (FMOD_second d 2) as Hs. set (w := FMOD d 2) in *.
  assert (w == d - 2) by (apply Hs; lra). lra.
Qed.

(** An amplitude candidate of (-7, -5) comes out of the mirror below -1. *)
Lemma mirror_amp_beyond (v : Q) : -7 < v -> v < -5 -> mirror_amp v < -1.
Proof.
  intros Hl Hu. unfold mirror_amp.
  case_ltb v (-1); [|lra]. simpl orb. cbv beta iota zeta.
  case_ltb v 0; [|lra].
  pose proof (FMOD_small (v + 4) 4) as Hs. set (w := FMOD (v + 4) 4) in *.
  assert (w == v + 4) by (apply Hs; lra).
  case_ltb 1 w; lra.
Qed.

(** ** Draws mapped to amplitudes and durations *)

Lemma bipolar_value (r : Z) :
  (0 <= r < 2147483648)%Z -> bipolar r = inject_Z (2 * r - 2147483647) * dv2_31.
Proof.
  intros Hr. unfold bipolar, uint32, int32, BIPOLAR.
  rewrite Z.shiftl_mul_pow2 by lia. do 2 f_equal.
  change (2 ^ 1)%Z with 2%Z. Z.div_mod_to_equations. lia.
Qed.

(** A 31-bit draw gives an amplitude in [-1, 1] and a duration in [0, 1]. *)
Lemma bipolar_range (r : Z) :
  (0 <= r < 2147483648)%Z -> -1 <= bipolar r /\ bipolar r <= 1.
Proof.
  intros Hr. rewrite (bipolar_value r Hr). unfold dv2_31, Qle. cbn. lia.
Qed.

Lemma unipolar_range (r : Z) :
  (0 <= r < 2147483648)%Z -> 0 <= unipolar r /\ unipolar r <= 1.
Proof. intros Hr. unfold unipolar, dv2_31, Qle. cbn. lia. Qed.

(** ** The distribution sampler *)

Section SamplerFacts.
Context `{Host}.

Lemma clamp_par_clamp (p : Q) : clamp_par p = clamp 0.0001 1 p.
Proof.
  unfold clamp_par, clamp.
  case_ltb 1 p; case_ltb p 0.0001; try reflexivity. lra.
Qed.

Lemma clamp_par_idem (p : Q) : clamp_par (clamp_par p) = clamp_par p.
Proof.
  unfold clamp_par at 2 3.
  case_ltb 1 p; [reflexivity|]. case_ltb p 0.0001; [reflexivity|].
  unfold clamp_par. case_ltb 1 p; [lra|]. case_ltb p 0.0001; [lra|]. reflexivity.
Qed.

(** C5. For every kind, every draw and every shape parameter (outside
    [0.0001, 1.0] or not), the sampler gives what it gives on the parameter
    clamped into that range; kind 6 returns the clamped parameter. *)
Theorem C5_sampler_clamps_shape (which : Z) (p : Q) (r : Z) :
  gendy_distribution which p r = gendy_distribution which (clamp 0.0001 1 p) r /\
  gendy_distribution 6 p r = clamp 0.0001 1 p.
Proof.
  split.
  - unfold gendy_distribution.
    rewrite <- (clamp_par_clamp p), clamp_par_idem. reflexivity.
  - unfold gendy_distribution. apply clamp_par_clamp.
Qed.

(** C6. A kind outside 0..6 gives the sample of kind 0, the bipolar
    mapping of the draw, whatever the shape parameter. *)
Theorem C6_unknown_kind_is_uniform (which : Z) (p : Q) (r : Z) :
  (which < 0 \/ 6 < which)%Z ->
  gendy_distribution which p r = gendy_distribution 0 p r /\
  gendy_distribution 0 p r = bipolar r.
Proof.
  intros Hk. split; [|reflexivity].
  unfold gendy_distribution.
  destruct which as [|k|k]; [reflexivity| |reflexivity].
  destruct k as [[[k|k|]|[k|k|]|]|[[k|k|]|[k|k|]|]|]; try reflexivity; lia.
Qed.

End SamplerFacts.

(** ** The generator register *)

Section DrawFacts.
Context `{Host}.

Lemma draw_shift (k : nat) (s : Z) : draw k (csoundRand31 s) = draw (S k) s.
Proof. unfold draw. symmetry. apply Nat.iter_succ_r. Qed.

Lemma draw_two (k : nat) (s : Z) :
  draw k (csoundRand31 (csoundRand31 s)) = draw (S (S k)) s.
Proof. now rewrite !draw_shift. Qed.

End DrawFacts.

(** ** The linear variant *)

Section LinearFacts.
Import Linear LinearHost.
Context `{Host}.

(** What the fill loop leaves alone. *)
Lemma init_fill_frame (cnt : nat) (i : Z) (p : GENDY) :
  let q := init_fill cnt i p in
  out q = out p /\ controls q = controls p /\ initcps q = initcps p /\
  phase q = phase p /\ amp q = amp p /\ nextamp q = nextamp p /\
  dur q = dur p /\ speed q = speed p /\ index q = index p.
Proof.
  revert i p. induction cnt as [|cnt IH]; intros i p; [cbn; tauto|].
  cbn [init_fill]. cbv zeta. specialize (IH (i + 1)%Z).
  match goal with |- context [init_fill cnt _ ?p1] => specialize (IH p1) end.
  cbv zeta in IH. cbn [out initcps phase amp nextamp dur speed index] in IH.
  unfold controls in *.
  cbn [kamp ampdist durdist adpar ddpar minfreq maxfreq ampscl durscl knum] in IH.
  exact IH.
Qed.

Lemma init_fill_rand (cnt : nat) (i : Z) (p : GENDY) :
  rand (init_fill cnt i p) = draw (2 * cnt) (rand p).
Proof.
  revert i p. induction cnt as [|cnt IH]; intros i p; [reflexivity|].
  cbn [init_fill]. cbv zeta. rewrite IH. cbn [rand].
  rewrite draw_two. f_equal. lia.
Qed.

Lemma init_fill_length (cnt : nat) (i : Z) (p : GENDY) :
  length (memamp (init_fill cnt i p)) = length (memamp p) /\
  length (memdur (init_fill cnt i p)) = length (memdur p).
Proof.
  revert i p. induction cnt as [|cnt IH]; intros i p; [cbn; tauto|].
  cbn [init_fill]. cbv zeta.
  destruct (IH (i + 1)%Z
    {| out := out p; kamp := kamp p; ampdist := ampdist p; durdist := durdist p;
       adpar := adpar p; ddpar := ddpar p; minfreq := minfreq p;
       maxfreq := maxfreq p; ampscl := ampscl p; durscl := durscl p;
       initcps := initcps p; knum := knum p; phase := phase p; amp := amp p;
       nextamp := nextamp p; dur := dur p; speed := speed p; index := index p;
       rand := csoundRand31 (csoundRand31 (rand p));
       memamp := aset (memamp p) i (bipolar (csoundRand31 (rand p)));
       memdur := aset (memdur p) i (unipolar (csoundRand31 (csoundRand31 (rand p)))) |})
    as [A B].
  rewrite A, B. cbn [memamp memdur]. unfold aset. now rewrite !length_insert.
Qed.

(** The loop writes at index [i] and above only. *)
Lemma init_fill_below (cnt i : nat) (p : GENDY) (j : nat) :
  (j < i)%nat ->
  memamp (init_fill cnt (Z.of_nat i) p) !! j = memamp p !! j /\
  memdur (init_fill cnt (Z.of_nat i) p) !! j = memdur p !! j.
Proof.
  revert i p. induction cnt as [|cnt IH]; intros i p Hj; [cbn; tauto|].
  cbn [init_fill]. cbv zeta.
  replace (Z.of_nat i + 1)%Z with (Z.of_nat (S i)) by lia.
  match goal with |- context [init_fill cnt _ ?p1] =>
    destruct (IH (S i) p1 ltac:(lia)) as [A B] end.
  rewrite A, B. cbn [memamp memdur]. unfold aset. rewrite !Nat2Z.id.
  split; apply list_lookup_insert_ne; lia.
Qed.

(** Point [i + j] of the store receives draw [2j + 1] as its amplitude and
    draw [2j + 2] as its duration. *)
Lemma init_fill_points (cnt i : nat) (p : GENDY) (j : nat) :
  (j < cnt)%nat ->
  (i + cnt <= length (memamp p))%nat -> (i + cnt <= length (memdur p))%nat ->
  memamp (init_fill cnt (Z.of_nat i) p) !! (i + j)%nat
    = Some (bipolar (draw (2 * j + 1) (rand p))) /\
  memdur (init_fill cnt (Z.of_nat i) p) !! (i + j)%nat
    = Some (unipolar (draw (2 * j + 2) (rand p))).
Proof.
  revert i p j. induction cnt as [|cnt IH]; intros i p j Hj La Ld; [lia|].
  cbn [init_fill]. cbv zeta.
  replace (Z.of_nat i + 1)%Z with (Z.of_nat (S i)) by lia.
  match goal with |- context [init_fill cnt _ ?p1] => set (p1' := p1) end.
  assert (length (memamp p1') = length (memamp p) /\
          length (memdur p1') = length (memdur p)) as [L1 L2].
  { subst p1'. cbn [memamp memdur]. unfold aset. now rewrite !length_insert. }
  destruct j as [|j].
  - destruct (init_fill_below cnt (S i) p1' i ltac:(lia)) as [A B].
    rewrite (Nat.add_0_r i), A, B. subst p1'. cbn [memamp memdur]. unfold aset.
    rewrite !Nat2Z.id. split; apply list_lookup_insert_eq; lia.
  - destruct (IH (S i) p1' j ltac:(lia) ltac:(lia) ltac:(lia)) as [A B].
    replace (i + S j)%nat with (S i + j)%nat by lia. rewrite A, B.
    subst p1'. cbn [rand]. rewrite !draw_two.
    split; do 3 f_equal; lia.
Qed.

End LinearFacts.

Section LinearBlock.
Import Linear LinearHost.
Context `{Host}.

(** The init function leaves the instance with phase 1 between two zero
    amplitudes. *)
Lemma gendy_init_state (cs : CSOUND) (p : GENDY) :
  let q := snd (gendy_init cs p) in
  phase q = 1 /\ amp q = 0 /\ nextamp q = 0 /\ out q = out p.
Proof.
  unfold gendy_init. cbn [snd]. cbv zeta.
  match goal with |- context [init_fill ?c ?i ?p0] =>
    pose proof (init_fill_frame c i p0) as F end.
  cbv zeta in F. cbn [out phase amp nextamp] in F. tauto.
Qed.

(** A sample writes no argument cell. *)
Lemma gendy_sample_cells (cs : CSOUND) (i : Z) (mn mx : Q) (n k : Z) (p : GENDY) :
  let q := snd (gendy_sample cs i mn mx n k p) in
  controls q = controls p /\ initcps q = initcps p.
Proof.
  unfold gendy_sample, gendy_advance.
  destruct (Qle_bool 1 (phase p)); cbn; tauto.
Qed.

Lemma gendy_loop_cells (cs : CSOUND) (i : Z) (mn mx : Q) (cnt : nat) (n k : Z)
    (p : GENDY) :
  let q := gendy_loop cs i mn mx cnt n k p in
  controls q = controls p /\ initcps q = initcps p.
Proof.
  revert n k p. induction cnt as [|cnt IH]; intros n k p; [cbn; tauto|].
  cbn [gendy_loop]. cbv zeta.
  pose proof (gendy_sample_cells cs i mn mx n k p) as S1. cbv zeta in S1.
  destruct (gendy_sample cs i mn mx n k p) as [k1 p1]. cbn [snd] in S1.
  specialize (IH (n + 1)%Z k1 p1). cbv zeta in IH.
  destruct IH as [A B], S1 as [C D]. split; congruence.
Qed.

(** A sample writes the slot of its own index only. *)
Lemma gendy_sample_out (cs : CSOUND) (i : Z) (mn mx : Q) (n k : Z) (p : GENDY) :
  out (snd (gendy_sample cs i mn mx n k p))
  = aset (out p) n (gendy_interp (snd (gendy_advance cs i mn mx k p))).
Proof.
  unfold gendy_sample, gendy_advance.
  destruct (Qle_bool 1 (phase p)); reflexivity.
Qed.

Lemma gendy_loop_out_below (cs : CSOUND) (i : Z) (mn mx : Q) (cnt : nat) (n : nat)
    (k : Z) (p : GENDY) (j : nat) :
  (j < n)%nat ->
  out (gendy_loop cs i mn mx cnt (Z.of_nat n) k p) !! j = out p !! j.
Proof.
  revert n k p. induction cnt as [|cnt IH]; intros n k p Hj; [reflexivity|].
  cbn [gendy_loop]. cbv zeta.
  pose proof (gendy_sample_out cs i mn mx (Z.of_nat n) k p) as S1.
  destruct (gendy_sample cs i mn mx (Z.of_nat n) k p) as [k1 p1]. cbn [snd] in S1.
  replace (Z.of_nat n + 1)%Z with (Z.of_nat (S n)) by lia.
  rewrite (IH (S n) k1 p1) by lia. rewrite S1. unfold aset.
  rewrite Nat2Z.id. apply list_lookup_insert_ne. lia.
Qed.

(** C10. After initialization the first sample of the linear variant is
    0, whatever the seed, the capacity argument and the control inputs of
    the first block: the advance of the first sample leaves phase 0 and
    amplitude 0, and the interpolation multiplies the output scale by 0. *)
Theorem C10_first_sample_is_zero (cs : CSOUND) (p : GENDY) (k : Controls) :
  (0 < ksmps cs)%Z -> (0 < length (out p))%nat ->
  (phase (snd (gendy_init cs p)) = 1 /\ amp (snd (gendy_init cs p)) = 0 /\
   nextamp (snd (gendy_init cs p)) = 0) /\
  exists v,
    out (gendy_process_arate (fst (gendy_init cs p))
           (set_controls k (snd (gendy_init cs p)))) !! 0%nat = Some v /\
    v == 0.
Proof.
  intros Hk Hout.
  destruct (gendy_init_state cs p) as (Hph & Ha & Hn & Ho).
  split; [tauto|].
  set (q := set_controls k (snd (gendy_init cs p))).
  assert (phase q = 1 /\ nextamp q = 0 /\ out q = out p) as (Qp & Qn & Qo)
    by (subst q; cbn [set_controls phase nextamp out]; tauto).
  unfold gendy_process_arate.
  replace (ksmps (fst (gendy_init cs p))) with (ksmps cs) by reflexivity.
  destruct (Z.to_nat (ksmps cs)) as [|cnt] eqn:Ek; [lia|].
  cbn [gendy_loop]. cbv zeta.
  set (i := trunc (initcps q)). set (kn := trunc (knum q)).
  pose proof (gendy_sample_out (fst (gendy_init cs p)) i (minfreq q) (maxfreq q)
                0 kn q) as S1.
  destruct (gendy_sample (fst (gendy_init cs p)) i (minfreq q) (maxfreq q) 0 kn q)
    as [k1 p1].
  cbn [snd] in S1.
  change (0 + 1)%Z with (Z.of_nat 1).
  rewrite gendy_loop_out_below by lia. rewrite S1. unfold aset.
  eexists. split.
  - apply list_lookup_insert_eq. rewrite Qo. exact Hout.
  - unfold gendy_advance. rewrite Qp.
    change (Qle_bool 1 1) with true. cbv iota.
    unfold gendy_interp, gendy_breakpoint. cbn [snd kamp phase amp nextamp].
    rewrite Qp, Qn. ring.
Qed.

End LinearBlock.

(** ** The curved variant, through the fields it shares with the linear one *)

Section CurvedFacts.
Context `{Host}.

Lemma linear_of_init_fill (cnt : nat) (i : Z) (x : Curved.GENDYX) :
  linear_of (Curved.init_fill cnt i x) = Linear.init_fill cnt i (linear_of x).
Proof.
  revert i x. induction cnt as [|cnt IH]; intros i x; [reflexivity|].
  cbn [Curved.init_fill Linear.init_fill]. cbv zeta. rewrite IH. reflexivity.
Qed.

Lemma curves_init_fill (cnt : nat) (i : Z) (x : Curved.GENDYX) :
  Curved.kcurveup (Curved.init_fill cnt i x) = Curved.kcurveup x /\
  Curved.kcurvedown (Curved.init_fill cnt i x) = Curved.kcurvedown x.
Proof.
  revert i x. induction cnt as [|cnt IH]; intros i x; [cbn; tauto|].
  cbn [Curved.init_fill]. cbv zeta.
  match goal with |- context [Curved.init_fill cnt ?j ?x1] =>
    destruct (IH j x1) as [A B] end.
  rewrite A, B. cbn. tauto.
Qed.

Lemma linear_of_init (cs : CSOUND) (x : Curved.GENDYX) :
  fst (Curved.gendyx_init cs x) = fst (Linear.gendy_init cs (linear_of x)) /\
  linear_of (snd (Curved.gendyx_init cs x)) = snd (Linear.gendy_init cs (linear_of x)).
Proof.
  split; [reflexivity|].
  unfold Curved.gendyx_init, Linear.gendy_init. cbn [snd]. cbv zeta.
  rewrite linear_of_init_fill. reflexivity.
Qed.

Lemma linear_of_breakpoint (cs : CSOUND) (i : Z) (mn mx : Q) (k : Z)
    (x : Curved.GENDYX) :
  fst (Curved.gendyx_breakpoint cs i mn mx k x)
  = fst (Linear.gendy_breakpoint cs i mn mx k (linear_of x)) /\
  linear_of (snd (Curved.gendyx_breakpoint cs i mn mx k x))
  = snd (Linear.gendy_breakpoint cs i mn mx k (linear_of x)).
Proof. split; reflexivity. Qed.

Lemma linear_of_advance (cs : CSOUND) (i : Z) (mn mx : Q) (k : Z)
    (x : Curved.GENDYX) :
  fst (Curved.gendyx_advance cs i mn mx k x)
  = fst (Linear.gendy_advance cs i mn mx k (linear_of x)) /\
  linear_of (snd (Curved.gendyx_advance cs i mn mx k x))
  = snd (Linear.gendy_advance cs i mn mx k (linear_of x)).
Proof.
  unfold Curved.gendyx_advance, Linear.gendy_advance. cbn [linear_of Linear.phase].
  destruct (Qle_bool 1 (Curved.phase x)); split; reflexivity.
Qed.

(** A sample of the curved variant writes no cell but those of the two
    exponents, where it leaves the clamped exponents. *)
Lemma gendyx_sample_cells (cs : CSOUND) (i : Z) (mn mx : Q) (n k : Z)
    (x : Curved.GENDYX) :
  let y := snd (Curved.gendyx_sample cs i mn mx n k x) in
  CurvedHost.controls y = CurvedHost.controls x /\
  Curved.initcps y = Curved.initcps x /\
  Curved.kcurveup y = Curved.clamp_curve (Curved.kcurveup x) /\
  Curved.kcurvedown y = Curved.clamp_curve (Curved.kcurvedown x).
Proof.
  unfold Curved.gendyx_sample, Curved.gendyx_advance.
  destruct (Qle_bool 1 (Curved.phase x)); cbn; tauto.
Qed.

Lemma clamp_curve_idem (c : Q) :
  Curved.clamp_curve (Curved.clamp_curve c) = Curved.clamp_curve c.
Proof.
  unfold Curved.clamp_curve. case_ltb c 0; [reflexivity|].
  case_ltb c 0; [lra|reflexivity].
Qed.

Lemma gendyx_loop_cells (cs : CSOUND) (i : Z) (mn mx : Q) (cnt : nat) (n k : Z)
    (x : Curved.GENDYX) :
  let y := Curved.gendyx_loop cs i mn mx cnt n k x in
  CurvedHost.controls y = CurvedHost.controls x /\
  Curved.initcps y = Curved.initcps x /\
  Curved.kcurveup y
  = match cnt with O => Curved.kcurveup x
    | S _ => Curved.clamp_curve (Curved.kcurveup x) end /\
  Curved.kcurvedown y
  = match cnt with O => Curved.kcurvedown x
    | S _ => Curved.clamp_curve (Curved.kcurvedown x) end.
Proof.
  revert n k x. induction cnt as [|cnt IH]; intros n k x; [cbn; tauto|].
  cbn [Curved.gendyx_loop]. cbv zeta.
  pose proof (gendyx_sample_cells cs i mn mx n k x) as S1. cbv zeta in S1.
  destruct (Curved.gendyx_sample cs i mn mx n k x) as [k1 x1]. cbn [snd] in S1.
  specialize (IH (n + 1)%Z k1 x1). cbv zeta in IH.
  destruct IH as (A & B & C & D), S1 as (A1 & B1 & C1 & D1).
  rewrite A, B, C, D, A1, B1, C1, D1.
  destruct cnt; rewrite ?clamp_curve_idem; tauto.
Qed.

End CurvedFacts.

(** ** The draws of an advance and of the initial fill *)

Section DrawsUsed.
Context `{Host}.

Lemma gendy_init_filled (cs : CSOUND) (p : Linear.GENDY) :
  let q := snd (Linear.gendy_init cs p) in
  randSeed1 (fst (Linear.gendy_init cs p)) = csoundRand31 (randSeed1 cs) /\
  Linear.initcps q = clamp_cps (Linear.initcps p) /\
  filled_from (csoundRand31 (randSeed1 cs)) (Z.to_nat (trunc (Linear.initcps q)))
    (Linear.rand q) (Linear.memamp q) (Linear.memdur q).
Proof.
  cbv zeta. split; [reflexivity|].
  unfold Linear.gendy_init. cbn [snd]. cbv zeta.
  set (n := Z.to_nat (trunc (clamp_cps (Linear.initcps p)))).
  match goal with |- context [Linear.init_fill n ?i ?p0] => set (p0' := p0) end.
  destruct (init_fill_frame n 0 p0') as (_ & _ & Ei & _).
  destruct (init_fill_length n 0 p0') as [La Ld].
  assert (length (Linear.memamp p0') = n /\ length (Linear.memdur p0') = n) as [L1 L2].
  { subst p0'. cbn [Linear.memamp Linear.memdur]. now rewrite !length_replicate. }
  rewrite Ei. split; [reflexivity|].
  replace (Z.to_nat (trunc (Linear.initcps p0'))) with n by reflexivity.
  unfold filled_from. rewrite init_fill_rand, La, Ld.
  repeat split; try assumption.
  - pose proof (init_fill_points n 0 p0' j) as P.
    destruct P as [A _]; [lia|lia|lia|]. exact A.
  - pose proof (init_fill_points n 0 p0' j) as P.
    destruct P as [_ B]; [lia|lia|lia|]. exact B.
Qed.

(** C8. Every breakpoint advance, of either variant and whatever the two
    kinds, draws twice from the register: the first draw gives the
    amplitude perturbation, the second the duration perturbation, and the
    register is left after the second.  The init function takes the seed of
    the instance from the host's generator and fills the store with
    2 x capacity draws from it, amplitude then duration for each point. *)
Theorem C8_two_draws_per_advance (cs : CSOUND) (i : Z) (mn mx : Q) (k : Z)
    (p : Linear.GENDY) (x : Curved.GENDYX) :
  (let q := snd (Linear.gendy_breakpoint cs i mn mx k p) in
   let r1 := csoundRand31 (Linear.rand p) in
   let r2 := csoundRand31 r1 in
   Linear.rand q = r2 /\
   Linear.nextamp q
   = mirror_amp (aref (Linear.memamp p) (Linear.index q) + Linear.ampscl p *
       gendy_distribution (trunc (Linear.ampdist p)) (Linear.adpar p) r1) /\
   Linear.dur q
   = mirror_dur (aref (Linear.memdur p) (Linear.index q) + Linear.durscl p *
       gendy_distribution (trunc (Linear.durdist p)) (Linear.ddpar p) r2)) /\
  (let y := snd (Curved.gendyx_breakpoint cs i mn mx k x) in
   let r1 := csoundRand31 (Curved.rand x) in
   let r2 := csoundRand31 r1 in
   Curved.rand y = r2 /\
   Curved.nextamp y
   = mirror_amp (aref (Curved.memamp x) (Curved.index y) + Curved.ampscl x *
       gendy_distribution (trunc (Curved.ampdist x)) (Curved.adpar x) r1) /\
   Curved.dur y
   = mirror_dur (aref (Curved.memdur x) (Curved.index y) + Curved.durscl x *
       gendy_distribution (trunc (Curved.durdist x)) (Curved.ddpar x) r2)) /\
  (let q := snd (Linear.gendy_init cs p) in
   filled_from (csoundRand31 (randSeed1 cs)) (Z.to_nat (trunc (Linear.initcps q)))
     (Linear.rand q) (Linear.memamp q) (Linear.memdur q)) /\
  (let y := snd (Curved.gendyx_init cs x) in
   filled_from (csoundRand31 (randSeed1 cs)) (Z.to_nat (trunc (Curved.initcps y)))
     (Curved.rand y) (Curved.memamp y) (Curved.memdur y)).
Proof.
  split; [cbn; tauto|]. split; [cbn; tauto|]. split.
  - apply gendy_init_filled.
  - cbv zeta. destruct (linear_of_init cs x) as [_ E].
    pose proof (gendy_init_filled cs (linear_of x)) as (_ & _ & F).
    rewrite <- E in F. exact F.
Qed.

End DrawsUsed.

(** ** Counting the draws

    The code calls the generator it is given and nothing else of the host's
    random state, so the draws can be counted by running it on the
    successor function. *)

Lemma draw_counting (k : nat) (s : Z) :
  draw (H := counting_host) k s = (s + Z.of_nat k)%Z.
Proof.
  unfold draw. induction k as [|k IH]; [cbn; lia|].
  rewrite Nat.iter_succ, IH. cbn [csoundRand31 counting_host]. lia.
Qed.

(** An advance moves the counting register by two ... *)
Lemma gendy_breakpoint_draw_count (cs : CSOUND) (i : Z) (mn mx : Q) (k : Z)
    (p : Linear.GENDY) :
  Linear.rand (snd (Linear.gendy_breakpoint (H := counting_host) cs i mn mx k p))
  = (Linear.rand p + 2)%Z.
Proof. cbn. lia. Qed.

(** ... and the init function leaves it one draw of the host's seed and
    two draws for each point of the store further. *)
Lemma gendy_init_draw_count (cs : CSOUND) (p : Linear.GENDY) :
  let q := snd (Linear.gendy_init (H := counting_host) cs p) in
  Linear.rand q
  = (randSeed1 cs + 1 + 2 * Z.of_nat (Z.to_nat (trunc (Linear.initcps q))))%Z.
Proof.
  cbv zeta.
  destruct (gendy_init_filled (H := counting_host) cs p) as (_ & _ & F & _).
  rewrite F, draw_counting. cbn [csoundRand31 counting_host]. lia.
Qed.

(** ** The store within the bounds of the mirrors *)

Section StoreBounds.
Context `{Host}.

(** The host generator yields 31-bit values. *)
Hypothesis rand31 : forall s : Z, (0 <= csoundRand31 s < 2147483648)%Z.

Lemma filled_store_bounds (seed : Z) (n : nat) (r : Z) (ma md : list Q) :
  filled_from seed n r ma md ->
  Forall amp_bounds ma /\ Forall dur_bounds md.
Proof.
  intros (_ & La & Ld & Hp).
  split; apply Forall_lookup; intros j v Hv;
    pose proof (lookup_lt_Some _ _ _ Hv) as Hj;
    destruct (Hp j ltac:(lia)) as [A B].
  - replace (2 * j + 1)%nat with (S (2 * j)) in A by lia.
    rewrite A in Hv. injection Hv as <-. apply bipolar_range, rand31.
  - replace (2 * j + 2)%nat with (S (2 * j + 1)) in B by lia.
    rewrite B in Hv. injection Hv as <-. apply unipolar_range, rand31.
Qed.

(** After initialization the store is within the bounds of the mirrors. *)
Lemma gendy_init_store_bounds (cs : CSOUND) (p : Linear.GENDY) :
  Forall amp_bounds (Linear.memamp (snd (Linear.gendy_init cs p))) /\
  Forall dur_bounds (Linear.memdur (snd (Linear.gendy_init cs p))).
Proof.
  destruct (gendy_init_filled cs p) as (_ & _ & F).
  exact (filled_store_bounds _ _ _ _ _ F).
Qed.

(** An advance whose amplitude candidate is at least -5 and whose duration
    candidate is in [-1, 2) leaves [nextamp], [dur] and the store within
    the bounds. *)
Lemma gendy_breakpoint_keeps_bounds (cs : CSOUND) (i : Z) (mn mx : Q) (k : Z)
    (p : Linear.GENDY) :
  let q := snd (Linear.gendy_breakpoint cs i mn mx k p) in
  Forall amp_bounds (Linear.memamp p) -> Forall dur_bounds (Linear.memdur p) ->
  -5 <= aref (Linear.memamp p) (Linear.index q) + Linear.ampscl p *
          gendy_distribution (trunc (Linear.ampdist p)) (Linear.adpar p)
            (csoundRand31 (Linear.rand p)) ->
  -1 <= aref (Linear.memdur p) (Linear.index q) + Linear.durscl p *
          gendy_distribution (trunc (Linear.durdist p)) (Linear.ddpar p)
            (csoundRand31 (csoundRand31 (Linear.rand p))) < 2 ->
  amp_bounds (Linear.nextamp q) /\ dur_bounds (Linear.dur q) /\
  Forall amp_bounds (Linear.memamp q) /\ Forall dur_bounds (Linear.memdur q).
Proof.
  cbv zeta. cbn [Linear.gendy_breakpoint snd Linear.index Linear.nextamp
                 Linear.dur Linear.memamp Linear.memdur].
  intros Fa Fd Ca [Cd1 Cd2].
  pose proof (mirror_amp_range _ Ca) as Ra.
  pose proof (mirror_dur_range _ Cd1 Cd2) as Rd.
  repeat split; try apply Ra; try apply Rd;
    unfold aset; apply Forall_insert; assumption.
Qed.

End StoreBounds.

(** ** One conditional advance per sample *)

Section Advance.
Context `{Host}.

(** Below 1 the phase triggers nothing. *)
Lemma gendy_advance_idle (cs : CSOUND) (i : Z) (mn mx : Q) (k : Z) (p : Linear.GENDY) :
  Linear.phase p < 1 -> Linear.gendy_advance cs i mn mx k p = (k, p).
Proof.
  intros Hp. unfold Linear.gendy_advance.
  destruct (Qle_bool 1 (Linear.phase p)) eqn:E; [|reflexivity].
  apply Qle_bool_iff in E. lra.
Qed.

Lemma gendy_advance_once (cs : CSOUND) (i : Z) (mn mx : Q) (k : Z) (p : Linear.GENDY) :
  1 <= Linear.phase p ->
  Linear.gendy_advance cs i mn mx k p = Linear.gendy_breakpoint cs i mn mx k p /\
  Linear.phase (snd (Linear.gendy_advance cs i mn mx k p)) = Linear.phase p - 1.
Proof.
  intros Hp. unfold Linear.gendy_advance.
  apply Qle_bool_iff in Hp. rewrite Hp. split; reflexivity.
Qed.

(** C1 (amended). When the phase is at least 1.0 at the start of a sample,
    a sample of either variant is exactly one breakpoint advance followed
    by the output: the advance takes 1.0 from the phase once and draws
    twice, the sample is interpolated at the phase so reduced, between the
    amplitude that was next and the new one, and the speed is then added.
    The phase of the interpolation is below 1.0 exactly when the phase at
    the start of the sample was below 2.0. *)
Theorem C1_sample_advances_once (cs : CSOUND) (i : Z) (mn mx : Q) (n k : Z)
    (p : Linear.GENDY) (x : Curved.GENDYX) :
  1 <= Linear.phase p -> 1 <= Curved.phase x ->
  (let b := Linear.gendy_breakpoint cs i mn mx k p in
   let s := Linear.gendy_sample cs i mn mx n k p in
   s = (fst b, Linear.gendy_emit n (snd b)) /\
   Linear.out (snd s)
   = aset (Linear.out p) n
       (Linear.kamp p * ((1 - (Linear.phase p - 1)) * Linear.nextamp p
                         + (Linear.phase p - 1) * Linear.nextamp (snd b))) /\
   Linear.rand (snd s) = csoundRand31 (csoundRand31 (Linear.rand p)) /\
   Linear.phase (snd s) = Linear.phase p - 1 + Linear.speed (snd b) /\
   (Linear.phase p - 1 < 1 <-> Linear.phase p < 2)) /\
  (let b := Curved.gendyx_breakpoint cs i mn mx k x in
   let s := Curved.gendyx_sample cs i mn mx n k x in
   let up := Curved.clamp_curve (Curved.kcurveup x) in
   let down := Curved.clamp_curve (Curved.kcurvedown x) in
   s = (fst b, Curved.gendyx_emit n (snd b)) /\
   Curved.out (snd s)
   = aset (Curved.out x) n
       (Curved.kamp x *
        (Curved.nextamp x
         + POWER (Curved.phase x - 1) (Curved.gendyx_curve up down (snd b))
           * (Curved.nextamp (snd b) - Curved.nextamp x))) /\
   Curved.rand (snd s) = csoundRand31 (csoundRand31 (Curved.rand x)) /\
   Curved.phase (snd s) = Curved.phase x - 1 + Curved.speed (snd b) /\
   (Curved.phase x - 1 < 1 <-> Curved.phase x < 2)).
Proof.
  intros Hp Hx. split; cbv zeta.
  - unfold Linear.gendy_sample, Linear.gendy_advance.
    apply Qle_bool_iff in Hp. rewrite Hp.
    repeat split; intros; apply Qle_bool_iff in Hp; lra.
  - unfold Curved.gendyx_sample, Curved.gendyx_advance.
    apply Qle_bool_iff in Hx. rewrite Hx.
    repeat split; intros; apply Qle_bool_iff in Hx; lra.
Qed.

End Advance.

(** ** Which argument cells are written *)

Section Cells.
Context `{Host}.

(** C4 (amended). The clamps of the shape parameters and of the active
    count work on local copies: no operation writes to their cells, nor to
    any other control cell, with two exceptions.  The init functions write
    the clamped capacity (12 below 1, 8192 above 8192) into the capacity
    cell, and the per-block function of the curved variant, once it
    computes a sample, leaves 0 in the cell of a negative exponent. *)
Theorem C4_cells_written (cs : CSOUND) (p : Linear.GENDY) (x : Curved.GENDYX) :
  (let q := snd (Linear.gendy_init cs p) in
   LinearHost.controls q = LinearHost.controls p /\
   Linear.initcps q = clamp_cps (Linear.initcps p)) /\
  (let y := snd (Curved.gendyx_init cs x) in
   CurvedHost.controls y = CurvedHost.controls x /\
   Curved.kcurveup y = Curved.kcurveup x /\
   Curved.kcurvedown y = Curved.kcurvedown x /\
   Curved.initcps y = clamp_cps (Curved.initcps x)) /\
  (let q := Linear.gendy_process_arate cs p in
   LinearHost.controls q = LinearHost.controls p /\
   Linear.initcps q = Linear.initcps p) /\
  (let y := Curved.gendyx_process_arate cs x in
   CurvedHost.controls y = CurvedHost.controls x /\
   Curved.initcps y = Curved.initcps x /\
   Curved.kcurveup y
   = (if (0 <? ksmps cs)%Z then Curved.clamp_curve (Curved.kcurveup x)
      else Curved.kcurveup x) /\
   Curved.kcurvedown y
   = (if (0 <? ksmps cs)%Z then Curved.clamp_curve (Curved.kcurvedown x)
      else Curved.kcurvedown x)).
Proof.
  assert (forall p0 : Linear.GENDY,
            LinearHost.controls (snd (Linear.gendy_init cs p0)) = LinearHost.controls p0 /\
            Linear.initcps (snd (Linear.gendy_init cs p0)) = clamp_cps (Linear.initcps p0))
    as Linit.
  { intros p0. unfold Linear.gendy_init. cbn [snd]. cbv zeta.
    match goal with |- context [Linear.init_fill ?c ?i ?p1] =>
      destruct (init_fill_frame c i p1) as (_ & A & B & _) end.
    rewrite A, B. split; reflexivity. }
  split; [apply Linit|]. split; [|split].
  - cbv zeta. destruct (linear_of_init cs x) as [_ E].
    destruct (Linit (linear_of x)) as [A B]. rewrite <- E in A, B.
    split; [exact A|]. split; [|split; [|exact B]].
    + unfold Curved.gendyx_init. cbn [snd]. cbv zeta.
      match goal with |- context [Curved.init_fill ?c ?i ?x1] =>
        destruct (curves_init_fill c i x1) as [C _] end.
      rewrite C. reflexivity.
    + unfold Curved.gendyx_init. cbn [snd]. cbv zeta.
      match goal with |- context [Curved.init_fill ?c ?i ?x1] =>
        destruct (curves_init_fill c i x1) as [_ D] end.
      rewrite D. reflexivity.
  - cbv zeta. unfold Linear.gendy_process_arate.
    match goal with |- context [Linear.gendy_loop cs ?i ?mn ?mx ?c ?n ?k p] =>
      destruct (gendy_loop_cells cs i mn mx c n k p) as (A & B) end.
    rewrite A, B. tauto.
  - cbv zeta. unfold Curved.gendyx_process_arate.
    match goal with |- context [Curved.gendyx_loop cs ?i ?mn ?mx ?c ?n ?k x] =>
      destruct (gendyx_loop_cells cs i mn mx c n k x) as (A & B & C & D) end.
    rewrite A, B, C, D.
    destruct (ksmps cs) as [|s|s]; [cbn; tauto| |cbn; tauto].
    change (Z.to_nat (Z.pos s)) with (Pos.to_nat s).
    change (0 <? Z.pos s)%Z with true.
    destruct (Pos2Nat.is_succ s) as [m ->]. tauto.
Qed.

End Cells.

(** ** Exponent 1 gives the linear interpolation *)

Section UnitExponents.
Context `{Host}.
Hypothesis POWER_one : forall v : Q, POWER v 1 == v.

Lemma same_instance_linear_of (g : Linear.GENDY) (x : Curved.GENDYX) :
  same_instance g x ->
  exists o, Forall2 Qeq o (Curved.out x) /\
    g = {| Linear.out := o;
           Linear.kamp := Curved.kamp x; Linear.ampdist := Curved.ampdist x;
           Linear.durdist := Curved.durdist x;
           Linear.adpar := Curved.adpar x; Linear.ddpar := Curved.ddpar x;
           Linear.minfreq := Curved.minfreq x; Linear.maxfreq := Curved.maxfreq x;
           Linear.ampscl := Curved.ampscl x; Linear.durscl := Curved.durscl x;
           Linear.initcps := Curved.initcps x; Linear.knum := Curved.knum x;
           Linear.phase := Curved.phase x; Linear.amp := Curved.amp x;
           Linear.nextamp := Curved.nextamp x;
           Linear.dur := Curved.dur x; Linear.speed := Curved.speed x;
           Linear.index := Curved.index x; Linear.rand := Curved.rand x;
           Linear.memamp := Curved.memamp x; Linear.memdur := Curved.memdur x |}.
Proof.
  unfold same_instance, LinearHost.controls, CurvedHost.controls.
  destruct g. cbn. intros (Ho & Ec & Ei & Es & Er & Em).
  injection Ec as -> -> -> -> -> -> -> -> -> ->.
  injection Es as -> -> -> -> ->. injection Er as -> ->. injection Em as -> ->.
  subst. eexists. split; [exact Ho|reflexivity].
Qed.

Lemma gendy_advance_unit (cs : CSOUND) (i : Z) (mn mx : Q) (k : Z)
    (g : Linear.GENDY) (x : Curved.GENDYX) :
  unit_pair g x ->
  fst (Linear.gendy_advance cs i mn mx k g)
  = fst (Curved.gendyx_advance cs i mn mx k x) /\
  unit_pair (snd (Linear.gendy_advance cs i mn mx k g))
            (snd (Curved.gendyx_advance cs i mn mx k x)).
Proof.
  intros (S & Eu & Ed).
  destruct (same_instance_linear_of g x S) as (o & Ho & ->).
  unfold Linear.gendy_advance, Curved.gendyx_advance. cbn [Linear.phase].
  destruct (Qle_bool 1 (Curved.phase x)).
  - split; [reflexivity|]. unfold unit_pair, same_instance.
    cbn. repeat split; try reflexivity; assumption.
  - split; [reflexivity|]. unfold unit_pair. cbn [snd]. tauto.
Qed.

Lemma gendy_interp_unit (g : Linear.GENDY) (x : Curved.GENDYX) :
  unit_pair g x ->
  Linear.gendy_interp g
  == Curved.gendyx_interp (Curved.clamp_curve (Curved.kcurveup x))
       (Curved.clamp_curve (Curved.kcurvedown x)) x.
Proof.
  intros (S & Eu & Ed).
  destruct (same_instance_linear_of g x S) as (o & Ho & ->).
  rewrite Eu, Ed.
  unfold Linear.gendy_interp, Curved.gendyx_interp, Curved.gendyx_curve.
  cbn [Linear.kamp Linear.phase Linear.amp Linear.nextamp].
  change (Curved.clamp_curve 1) with 1.
  destruct (Qltb 0 (Curved.nextamp x - Curved.amp x)); rewrite POWER_one; ring.
Qed.

Lemma gendy_emit_unit (n : Z) (g : Linear.GENDY) (x : Curved.GENDYX) :
  unit_pair g x -> unit_pair (Linear.gendy_emit n g) (Curved.gendyx_emit n x).
Proof.
  intros U. pose proof (gendy_interp_unit g x U) as I.
  destruct U as (S & Eu & Ed).
  unfold unit_pair, same_instance, Linear.gendy_emit, Curved.gendyx_emit. cbv zeta.
  cbn [Linear.out Curved.out Curved.kcurveup Curved.kcurvedown].
  destruct S as (Ho & Ec & Ei & Es & Er & Em).
  rewrite Eu, Ed in *. change (Curved.clamp_curve 1) with 1 in *.
  repeat split.
  - unfold aset. apply Forall2_insert; assumption.
  - exact Ec.
  - exact Ei.
  - injection Es as -> -> -> -> ->. reflexivity.
  - exact Er.
  - exact Em.
Qed.

Lemma gendy_loop_unit (cs : CSOUND) (i : Z) (mn mx : Q) (cnt : nat) (n k : Z)
    (g : Linear.GENDY) (x : Curved.GENDYX) :
  unit_pair g x ->
  unit_pair (Linear.gendy_loop cs i mn mx cnt n k g)
            (Curved.gendyx_loop cs i mn mx cnt n k x).
Proof.
  revert n k g x. induction cnt as [|cnt IH]; intros n k g x U; [exact U|].
  cbn [Linear.gendy_loop Curved.gendyx_loop].
  unfold Linear.gendy_sample, Curved.gendyx_sample.
  destruct (gendy_advance_unit cs i mn mx k g x U) as [Ek U1].
  destruct (Linear.gendy_advance cs i mn mx k g) as [k1 g1].
  destruct (Curved.gendyx_advance cs i mn mx k x) as [k2 x1].
  cbn [fst snd] in Ek, U1. subst k2.
  apply IH. now apply gendy_emit_unit.
Qed.

Lemma gendy_process_unit (cs : CSOUND) (g : Linear.GENDY) (x : Curved.GENDYX) :
  unit_pair g x ->
  unit_pair (Linear.gendy_process_arate cs g) (Curved.gendyx_process_arate cs x).
Proof.
  intros U. unfold Linear.gendy_process_arate, Curved.gendyx_process_arate.
  assert (Linear.initcps g = Curved.initcps x /\ Linear.minfreq g = Curved.minfreq x /\
          Linear.maxfreq g = Curved.maxfreq x /\ Linear.knum g = Curved.knum x)
    as (-> & -> & -> & ->).
  { destruct U as (S & _). destruct (same_instance_linear_of g x S) as (o & _ & ->).
    cbn. tauto. }
  now apply gendy_loop_unit.
Qed.

Lemma set_controls_unit (k : Controls) (g : Linear.GENDY) (x : Curved.GENDYX) :
  same_instance g x ->
  unit_pair (LinearHost.set_controls k g) (CurvedHost.set_controls k 1 1 x).
Proof.
  intros (Ho & Ec & Ei & Es & Er & Em).
  unfold unit_pair, same_instance. cbn. tauto.
Qed.

(** Were no operation rounded, the curved variant with both exponents at 1
    would write the samples of the linear variant: from the same instance
    and under the same control inputs, block after block, the samples are
    equal as rationals and the two instances stay the same; it takes that
    the power with exponent 1 is the identity.  (The program rounds the
    two expressions differently: see [Binary64] and the samples at the
    exponent 1 below.) *)
Lemma unit_exponents_exact (cs : CSOUND) (ks : list Controls)
    (g : Linear.GENDY) (x : Curved.GENDYX) :
  same_instance g x ->
  Forall2 (Forall2 Qeq) (fst (LinearHost.perform cs ks g))
                        (fst (CurvedHost.perform cs 1 1 ks x)) /\
  same_instance (snd (LinearHost.perform cs ks g))
                (snd (CurvedHost.perform cs 1 1 ks x)).
Proof.
  revert g x. induction ks as [|k ks IH]; intros g x S.
  - cbn. split; [constructor|exact S].
  - cbn [LinearHost.perform CurvedHost.perform]. cbv zeta.
    pose proof (gendy_process_unit cs _ _ (set_controls_unit k g x S)) as (S1 & _).
    destruct (IH _ _ S1) as [A B].
    destruct (LinearHost.perform cs ks _) as [o1 g2].
    destruct (CurvedHost.perform cs 1 1 ks _) as [o2 x2].
    cbn [fst snd] in *. split; [|exact B].
    constructor; [|exact A]. destruct S1 as (Ho & _). exact Ho.
Qed.

End UnitExponents.

(** ** The mirrors at given candidates *)

Section MirrorValues.
Context `{Host}.

(** C9. The amplitude mirror takes the candidate 2.5 to -0.5 and the
    duration mirror takes the candidate 1.5 to 0.5; so does an advance
    whose candidates are 0.5 + 2 x 1 and 0.5 + 1 x 1. *)
Theorem C9_mirror_boundaries (cs : CSOUND) :
  mirror_amp 2.5 == -0.5 /\ mirror_dur 1.5 == 0.5 /\
  (let p := one_point_gendy 0.5 0.5 (passthrough_controls 2 1) in
   let q := snd (Linear.gendy_breakpoint cs 1 220 440 1 p) in
   aref (Linear.memamp p) (Linear.index q) + Linear.ampscl p *
     gendy_distribution (trunc (Linear.ampdist p)) (Linear.adpar p)
       (csoundRand31 (Linear.rand p)) == 2.5 /\
   Linear.nextamp q == -0.5 /\
   aref (Linear.memdur p) (Linear.index q) + Linear.durscl p *
     gendy_distribution (trunc (Linear.durdist p)) (Linear.ddpar p)
       (csoundRand31 (csoundRand31 (Linear.rand p))) == 1.5 /\
   Linear.dur q == 0.5).
Proof. repeat split. Qed.

End MirrorValues.

(** * Further properties of the code *)

(** ** The kind cells and the sampler *)

Lemma Qfloor_between (n : Z) (x : Q) :
  inject_Z n <= x -> x < inject_Z n + 1 -> Qfloor x = n.
Proof.
  intros Hl Hu.
  pose proof (Qfloor_le x) as Fl. pose proof (Qlt_floor x) as Fu.
  rewrite inject_Z_plus in Fu. change (inject_Z 1) with 1 in Fu.
  assert (inject_Z (Qfloor x) < inject_Z (n + 1)) as A
    by (rewrite inject_Z_plus; change (inject_Z 1) with 1; lra).
  assert (inject_Z n < inject_Z (Qfloor x + 1)) as B
    by (rewrite inject_Z_plus; change (inject_Z 1) with 1; lra).
  rewrite <- Zlt_Qlt in A, B. lia.
Qed.

Lemma trunc_below_one (x : Q) : x < 1 -> (trunc x <= 0)%Z.
Proof.
  intros Hx. destruct (Qlt_le_dec x 0) as [Hneg | Hpos].
  - assert (0 <= trunc (- x))%Z as A.
    { rewrite trunc_nonneg by lra.
      change 0%Z with (Qfloor (inject_Z 0)). apply Qfloor_resp_le.
      change (inject_Z 0) with 0. lra. }
    rewrite trunc_opp in A. lia.
  - rewrite trunc_nonneg by lra. rewrite Qfloor_unit by lra. lia.
Qed.

Lemma trunc_from (n : Z) (x : Q) : (0 <= n)%Z -> inject_Z n <= x -> (n <= trunc x)%Z.
Proof.
  intros Hn Hx.
  assert (0 <= x) as H0.
  { apply Qle_trans with (inject_Z n); [|exact Hx].
    change 0 with (inject_Z 0). now rewrite <- Zle_Qle. }
  rewrite trunc_nonneg by exact H0.
  rewrite <- (Qfloor_Z n). now apply Qfloor_resp_le.
Qed.

Lemma trunc_upto (n : Z) (x : Q) : 0 <= x -> x <= inject_Z n -> (trunc x <= n)%Z.
Proof.
  intros H0 Hx. rewrite trunc_nonneg by exact H0.
  rewrite <- (Qfloor_Z n). now apply Qfloor_resp_le.
Qed.

Lemma bipolar_strict (r : Z) :
  (0 <= r < 2147483648)%Z -> -1 < bipolar r /\ bipolar r < 1.
Proof.
  intros Hr. rewrite (bipolar_value r Hr). unfold dv2_31, Qlt. cbn. lia.
Qed.

Section KindCells.
Context `{Host}.

Lemma gendy_distribution_default (which : Z) (a : Q) (r : Z) :
  (which <= 0 \/ 7 <= which)%Z -> gendy_distribution which a r = bipolar r.
Proof.
  intros Hk. unfold gendy_distribution.
  destruct which as [|k|k]; [reflexivity| |reflexivity].
  destruct k as [[[k|k|]|[k|k|]|]|[[k|k|]|[k|k|]|]|]; try reflexivity; lia.
Qed.

Lemma gendy_distribution_uniform_cell (k a : Q) (r : Z) :
  k < 1 \/ 7 <= k -> gendy_distribution (trunc k) a r = bipolar r.
Proof.
  intros [Hk | Hk]; apply gendy_distribution_default.
  - left. now apply trunc_below_one.
  - right. apply trunc_from; [lia|exact Hk].
Qed.

(** A kind cell below 1 or from 7 upwards, converted to [int] at the
    call, selects the uniform perturbation: on a 31-bit draw [r] it is
    (2r - (2^31 - 1)) / 2^31, strictly between -1 and 1, the wrap-around of
    the integer expression notwithstanding. *)
Theorem uniform_cell_perturbation (k a : Q) (r : Z) :
  k < 1 \/ 7 <= k -> (0 <= r < 2147483648)%Z ->
  gendy_distribution (trunc k) a r = inject_Z (2 * r - 2147483647) * dv2_31 /\
  -1 < gendy_distribution (trunc k) a r /\ gendy_distribution (trunc k) a r < 1.
Proof.
  intros Hk Hr. rewrite (gendy_distribution_uniform_cell k a r Hk).
  split; [now apply bipolar_value|now apply bipolar_strict].
Qed.

(** A kind cell in [6, 7) selects the external signal: the perturbation is
    the shape parameter clamped, always within [0.0001, 1], and the shape
    parameter itself when that is within the range. *)
Theorem external_cell_perturbation (k a : Q) (r : Z) :
  6 <= k -> k < 7 ->
  0.0001 <= gendy_distribution (trunc k) a r /\
  gendy_distribution (trunc k) a r <= 1 /\
  (0.0001 <= a -> a <= 1 -> gendy_distribution (trunc k) a r = a).
Proof.
  intros Hl Hu.
  assert (trunc k = 6%Z) as ->.
  { rewrite trunc_nonneg by lra. apply Qfloor_between.
    - change (inject_Z 6) with 6. exact Hl.
    - change (inject_Z 6) with 6. lra. }
  unfold gendy_distribution, clamp_par.
  case_ltb 1 a; [|case_ltb a 0.0001]; repeat split; intros; lra.
Qed.

End KindCells.

(** ** The mirrors as reflections *)

(** The amplitude mirror keeps every candidate from -5 upwards within
    [-1, 1], and mirroring twice is mirroring once. *)
Theorem mirror_amp_idempotent (v : Q) :
  -5 <= v ->
  amp_bounds (mirror_amp v) /\ mirror_amp (mirror_amp v) = mirror_amp v.
Proof.
  intros Hv. pose proof (mirror_amp_range v Hv) as [A B].
  split; [split; assumption|]. now apply mirror_amp_inside.
Qed.

(** The duration mirror keeps every candidate of [0, 2) and of
    [-1, -2^-23] within [0, 1], and mirroring twice is mirroring once.
    (The candidates between -2^-23 and 0 are left out: the sum of line 166
    is exact here, while the program rounds it, to 2.0 for the candidates
    nearest to 0; see [Binary64.plus_two].) *)
Theorem mirror_dur_idempotent (d : Q) :
  (0 <= d /\ d < 2) \/ (-1 <= d /\ d <= - (1 # 8388608)) ->
  dur_bounds (mirror_dur d) /\ mirror_dur (mirror_dur d) = mirror_dur d.
Proof.
  intros Hd.
  assert (-1 <= d /\ d < 2) as [Hl Hu] by (destruct Hd; lra).
  pose proof (mirror_dur_range d Hl Hu) as [A B].
  split; [split; assumption|]. now apply mirror_dur_inside.
Qed.

(** A candidate above the upper bound is reflected about it: an amplitude
    candidate [v] of [1, 3] becomes [2 - v], a duration candidate [d] of
    [1, 2) becomes [2 - d]. *)
Theorem mirrors_reflect (v d : Q) :
  1 <= v -> v <= 3 -> 1 <= d -> d < 2 ->
  mirror_amp v == 2 - v /\ mirror_dur d == 2 - d.
Proof.
  intros V1 V3 D1 D2. split.
  - unfold mirror_amp. case_ltb v (-1); [lra|].
    case_ltb 1 v; simpl orb; cbv beta iota zeta; [|lra].
    case_ltb v 0; [lra|].
    pose proof (FMOD_small v 4) as Hs. set (w := FMOD v 4) in *.
    assert (w == v) by (apply Hs; lra).
    case_ltb 1 w; [case_ltb w 3|]; lra.
  - unfold mirror_dur. case_ltb 1 d; [|case_ltb d 0; lra].
    pose proof (FMOD_small d 2) as Hs. set (w := FMOD d 2) in *.
    assert (w == d) by (apply Hs; lra). lra.
Qed.

(** ** The capacity and the store after initialization *)

Lemma clamp_cps_range (c : Q) : 1 <= clamp_cps c /\ clamp_cps c <= 8192.
Proof.
  unfold clamp_cps. change (inject_Z GENDYMAXCPS) with 8192.
  case_ltb c 1; [lra|]. case_ltb 8192 c; lra.
Qed.

Lemma trunc_clamp_cps (c : Q) : (1 <= trunc (clamp_cps c) <= 8192)%Z.
Proof.
  destruct (clamp_cps_range c) as [A B]. split.
  - apply trunc_from; [lia|]. change (inject_Z 1) with 1. exact A.
  - apply trunc_upto; [lra|]. change (inject_Z 8192) with 8192. exact B.
Qed.

Section InitFacts.
Context `{Host}.

Lemma gendy_init_capacity (cs : CSOUND) (p : Linear.GENDY) :
  let q := snd (Linear.gendy_init cs p) in
  let n := trunc (Linear.initcps q) in
  (1 <= n <= 8192)%Z /\
  length (Linear.memamp q) = Z.to_nat n /\ length (Linear.memdur q) = Z.to_nat n /\
  Linear.index q = 0%Z /\
  (Linear.initcps p < 1 -> Linear.initcps q = 12) /\
  (8192 < Linear.initcps p -> Linear.initcps q = 8192) /\
  (1 <= Linear.initcps p -> Linear.initcps p <= 8192 ->
   Linear.initcps q = Linear.initcps p).
Proof.
  cbv zeta. destruct (gendy_init_filled cs p) as (_ & Ei & _ & La & Ld & _).
  rewrite La, Ld, Ei. split; [apply trunc_clamp_cps|].
  split; [reflexivity|]. split; [reflexivity|]. split.
  { unfold Linear.gendy_init. cbn [snd]. cbv zeta.
    match goal with |- context [Linear.init_fill ?c ?i ?p0] =>
      destruct (init_fill_frame c i p0) as (_ & _ & _ & _ & _ & _ & _ & _ & Ex) end.
    rewrite Ex. reflexivity. }
  unfold clamp_cps. change (inject_Z GENDYMAXCPS) with 8192.
  repeat split; intros.
  - case_ltb (Linear.initcps p) 1; [reflexivity|lra].
  - case_ltb (Linear.initcps p) 1; [lra|].
    case_ltb 8192 (Linear.initcps p); [reflexivity|lra].
  - case_ltb (Linear.initcps p) 1; [lra|].
    case_ltb 8192 (Linear.initcps p); [lra|reflexivity].
Qed.

(** Whatever the capacity argument, either init function leaves a
    capacity of 1 to 8192 in its cell (12 for an argument below 1, 8192 for
    one above, the argument itself otherwise), two arrays of exactly that
    many points (the capacity truncated) and the index at 0. *)
Theorem init_capacity (cs : CSOUND) (p : Linear.GENDY) (x : Curved.GENDYX) :
  (let q := snd (Linear.gendy_init cs p) in
   let n := trunc (Linear.initcps q) in
   (1 <= n <= 8192)%Z /\
   length (Linear.memamp q) = Z.to_nat n /\ length (Linear.memdur q) = Z.to_nat n /\
   Linear.index q = 0%Z /\
   (Linear.initcps p < 1 -> Linear.initcps q = 12) /\
   (8192 < Linear.initcps p -> Linear.initcps q = 8192) /\
   (1 <= Linear.initcps p -> Linear.initcps p <= 8192 ->
    Linear.initcps q = Linear.initcps p)) /\
  (let y := snd (Curved.gendyx_init cs x) in
   let n := trunc (Curved.initcps y) in
   (1 <= n <= 8192)%Z /\
   length (Curved.memamp y) = Z.to_nat n /\ length (Curved.memdur y) = Z.to_nat n /\
   Curved.index y = 0%Z /\
   (Curved.initcps x < 1 -> Curved.initcps y = 12) /\
   (8192 < Curved.initcps x -> Curved.initcps y = 8192) /\
   (1 <= Curved.initcps x -> Curved.initcps x <= 8192 ->
    Curved.initcps y = Curved.initcps x)).
Proof.
  split; [apply gendy_init_capacity|].
  cbv zeta. destruct (linear_of_init cs x) as [_ E].
  pose proof (gendy_init_capacity cs (linear_of x)) as F. cbv zeta in F.
  rewrite <- E in F. exact F.
Qed.

(** With a host generator of 31-bit values, either init function leaves
    every amplitude of the store within [-1, 1], every duration within
    [0, 1], and both amplitudes of the instance at 0. *)
Theorem init_store_bounds (cs : CSOUND) (p : Linear.GENDY) (x : Curved.GENDYX) :
  host31 ->
  (let q := snd (Linear.gendy_init cs p) in
   Forall amp_bounds (Linear.memamp q) /\ Forall dur_bounds (Linear.memdur q) /\
   Linear.amp q = 0 /\ Linear.nextamp q = 0) /\
  (let y := snd (Curved.gendyx_init cs x) in
   Forall amp_bounds (Curved.memamp y) /\ Forall dur_bounds (Curved.memdur y) /\
   Curved.amp y = 0 /\ Curved.nextamp y = 0).
Proof.
  intros R.
  assert (forall p0,
            let q := snd (Linear.gendy_init cs p0) in
            Forall amp_bounds (Linear.memamp q) /\
            Forall dur_bounds (Linear.memdur q) /\
            Linear.amp q = 0 /\ Linear.nextamp q = 0) as L.
  { intros p0. cbv zeta. destruct (gendy_init_store_bounds R cs p0) as [A B].
    destruct (gendy_init_state cs p0) as (_ & Ea & En & _). tauto. }
  split; [apply L|]. cbv zeta. destruct (linear_of_init cs x) as [_ E].
  pose proof (L (linear_of x)) as Lx. cbv zeta in Lx. rewrite <- E in Lx.
  exact Lx.
Qed.

End InitFacts.

(** ** The index into the store *)

Lemma clamp_knum_range (i k : Z) :
  (1 <= i)%Z ->
  (1 <= clamp_knum i k <= i)%Z /\ ((1 <= k <= i)%Z -> clamp_knum i k = k) /\
  clamp_knum i (clamp_knum i k) = clamp_knum i k.
Proof.
  intros Hi. unfold clamp_knum.
  destruct (i <? k)%Z eqn:E1; destruct (k <? 1)%Z eqn:E2; cbn [orb];
    rewrite ?Z.ltb_lt, ?Z.ltb_ge in *;
    (split; [lia|split; [intros; try lia; reflexivity|]]).
  all: try (replace (i <? i)%Z with false by (symmetry; apply Z.ltb_ge; lia);
            replace (i <? 1)%Z with false by (symmetry; apply Z.ltb_ge; lia);
            reflexivity).
  replace (i <? k)%Z with false by (symmetry; apply Z.ltb_ge; lia).
  replace (k <? 1)%Z with false by (symmetry; apply Z.ltb_ge; lia).
  reflexivity.
Qed.

Section IndexFacts.
Context `{Host}.

Lemma gendy_breakpoint_index (cs : CSOUND) (i : Z) (mn mx : Q) (k : Z)
    (p : Linear.GENDY) :
  (1 <= i)%Z -> (0 <= Linear.index p)%Z ->
  fst (Linear.gendy_breakpoint cs i mn mx k p) = clamp_knum i k /\
  Linear.index (snd (Linear.gendy_breakpoint cs i mn mx k p))
  = ((Linear.index p + 1) mod clamp_knum i k)%Z.
Proof.
  intros Hi Hx. split; [reflexivity|].
  cbn [Linear.gendy_breakpoint snd Linear.index].
  fold (clamp_knum i k). destruct (clamp_knum_range i k Hi) as [Hk _].
  apply Z.rem_mod_nonneg; lia.
Qed.

(** With a capacity of at least 1 and the index not negative, a
    breakpoint advance of either variant resolves the active count into
    1..capacity (the requested count when that is within the range, the
    capacity otherwise) and leaves the index within 0..count-1, so the
    point it reads and writes is inside arrays of capacity points, whose
    lengths it keeps. *)
Theorem advance_index_in_store (cs : CSOUND) (i : Z) (mn mx : Q) (k : Z)
    (p : Linear.GENDY) (x : Curved.GENDYX) :
  (1 <= i)%Z -> (0 <= Linear.index p)%Z -> (0 <= Curved.index x)%Z ->
  (let k1 := fst (Linear.gendy_breakpoint cs i mn mx k p) in
   let q := snd (Linear.gendy_breakpoint cs i mn mx k p) in
   (1 <= k1 <= i)%Z /\ ((1 <= k <= i)%Z -> k1 = k) /\
   ((k < 1 \/ i < k)%Z -> k1 = i) /\
   (0 <= Linear.index q < k1)%Z /\
   length (Linear.memamp q) = length (Linear.memamp p) /\
   length (Linear.memdur q) = length (Linear.memdur p)) /\
  (let k1 := fst (Curved.gendyx_breakpoint cs i mn mx k x) in
   let y := snd (Curved.gendyx_breakpoint cs i mn mx k x) in
   (1 <= k1 <= i)%Z /\ ((1 <= k <= i)%Z -> k1 = k) /\
   ((k < 1 \/ i < k)%Z -> k1 = i) /\
   (0 <= Curved.index y < k1)%Z /\
   length (Curved.memamp y) = length (Curved.memamp x) /\
   length (Curved.memdur y) = length (Curved.memdur x)).
Proof.
  intros Hi Hp Hx.
  assert (forall p0 : Linear.GENDY, (0 <= Linear.index p0)%Z ->
     let k1 := fst (Linear.gendy_breakpoint cs i mn mx k p0) in
     let q := snd (Linear.gendy_breakpoint cs i mn mx k p0) in
     (1 <= k1 <= i)%Z /\ ((1 <= k <= i)%Z -> k1 = k) /\
     ((k < 1 \/ i < k)%Z -> k1 = i) /\
     (0 <= Linear.index q < k1)%Z /\
     length (Linear.memamp q) = length (Linear.memamp p0) /\
     length (Linear.memdur q) = length (Linear.memdur p0)) as L.
  { intros p0 H0. cbv zeta.
    destruct (gendy_breakpoint_index cs i mn mx k p0 Hi H0) as [-> ->].
    destruct (clamp_knum_range i k Hi) as (A & B & _).
    split; [exact A|]. split; [exact B|]. split.
    { intros Hout. unfold clamp_knum.
      destruct (i <? k)%Z eqn:E1; destruct (k <? 1)%Z eqn:E2; cbn [orb];
        rewrite ?Z.ltb_lt, ?Z.ltb_ge in *; try reflexivity; lia. }
    split; [apply Z.mod_pos_bound; lia|].
    cbn [Linear.gendy_breakpoint snd Linear.memamp Linear.memdur]. unfold aset.
    now rewrite !length_insert. }
  split; [apply L, Hp|].
  pose proof (L (linear_of x) Hx) as Lx. cbv zeta in Lx. exact Lx.
Qed.

Lemma gendy_breakpoints_index (cs : CSOUND) (i : Z) (mn mx : Q) (n : nat) (k : Z)
    (p : Linear.GENDY) :
  (1 <= i)%Z -> (0 <= Linear.index p)%Z ->
  Linear.index (snd (gendy_breakpoints cs i mn mx (S n) k p))
  = ((Linear.index p + Z.of_nat (S n)) mod clamp_knum i k)%Z.
Proof.
  intros Hi. revert k p. induction n as [|n IH]; intros k p Hp.
  - cbn [gendy_breakpoints].
    destruct (gendy_breakpoint_index cs i mn mx k p Hi Hp) as [_ E].
    destruct (Linear.gendy_breakpoint cs i mn mx k p) as [k1 p1].
    cbn [snd] in *. exact E.
  - change (gendy_breakpoints cs i mn mx (S (S n)) k p)
      with (let '(k1, p1) := Linear.gendy_breakpoint cs i mn mx k p in
            gendy_breakpoints cs i mn mx (S n) k1 p1).
    destruct (gendy_breakpoint_index cs i mn mx k p Hi Hp) as [Ek E].
    destruct (Linear.gendy_breakpoint cs i mn mx k p) as [k1 p1].
    cbn [fst snd] in Ek, E. subst k1.
    destruct (clamp_knum_range i k Hi) as (A & _ & C).
    rewrite IH, C, E.
    + rewrite Zplus_mod_idemp_l. f_equal. lia.
    + rewrite E. apply Z.mod_pos_bound. lia.
Qed.

(** The store is traversed cyclically: after [n] advances in a row, for
    [n > 0], with a capacity of at least 1 and under an unchanged count
    request, the index is the starting index plus [n], modulo the active
    count. *)
Theorem advances_cycle (cs : CSOUND) (i : Z) (mn mx : Q) (n : nat) (k : Z)
    (p : Linear.GENDY) :
  (1 <= i)%Z -> (0 <= Linear.index p)%Z -> (0 < n)%nat ->
  Linear.index (snd (gendy_breakpoints cs i mn mx n k p))
  = ((Linear.index p + Z.of_nat n) mod clamp_knum i k)%Z.
Proof.
  intros Hi Hp Hn. destruct n as [|n]; [lia|].
  now apply gendy_breakpoints_index.
Qed.

End IndexFacts.

(** ** What a block writes *)

Section BlockFrame.
Context `{Host}.

Lemma gendy_sample_lengths (cs : CSOUND) (i : Z) (mn mx : Q) (n k : Z)
    (p : Linear.GENDY) :
  let q := snd (Linear.gendy_sample cs i mn mx n k p) in
  length (Linear.out q) = length (Linear.out p) /\
  length (Linear.memamp q) = length (Linear.memamp p) /\
  length (Linear.memdur q) = length (Linear.memdur p).
Proof.
  unfold Linear.gendy_sample, Linear.gendy_advance.
  destruct (Qle_bool 1 (Linear.phase p)); cbn; unfold aset;
    rewrite ?length_insert; tauto.
Qed.

Lemma gendy_loop_lengths (cs : CSOUND) (i : Z) (mn mx : Q) (cnt : nat) (n k : Z)
    (p : Linear.GENDY) :
  let q := Linear.gendy_loop cs i mn mx cnt n k p in
  length (Linear.out q) = length (Linear.out p) /\
  length (Linear.memamp q) = length (Linear.memamp p) /\
  length (Linear.memdur q) = length (Linear.memdur p).
Proof.
  revert n k p. induction cnt as [|cnt IH]; intros n k p; [cbn; tauto|].
  cbn [Linear.gendy_loop]. cbv zeta.
  pose proof (gendy_sample_lengths cs i mn mx n k p) as S1. cbv zeta in S1.
  destruct (Linear.gendy_sample cs i mn mx n k p) as [k1 p1]. cbn [snd] in S1.
  specialize (IH (n + 1)%Z k1 p1). cbv zeta in IH.
  destruct IH as (A & B & C), S1 as (A1 & B1 & C1). repeat split; congruence.
Qed.

Lemma gendy_loop_out_above (cs : CSOUND) (i : Z) (mn mx : Q) (cnt n : nat)
    (k : Z) (p : Linear.GENDY) (j : nat) :
  (n + cnt <= j)%nat ->
  Linear.out (Linear.gendy_loop cs i mn mx cnt (Z.of_nat n) k p) !! j
  = Linear.out p !! j.
Proof.
  revert n k p. induction cnt as [|cnt IH]; intros n k p Hj; [reflexivity|].
  cbn [Linear.gendy_loop]. cbv zeta.
  pose proof (gendy_sample_out cs i mn mx (Z.of_nat n) k p) as S1.
  destruct (Linear.gendy_sample cs i mn mx (Z.of_nat n) k p) as [k1 p1].
  cbn [snd] in S1.
  replace (Z.of_nat n + 1)%Z with (Z.of_nat (S n)) by lia.
  rewrite (IH (S n) k1 p1) by lia. rewrite S1. unfold aset.
  rewrite Nat2Z.id. apply list_lookup_insert_ne. lia.
Qed.

Lemma gendyx_sample_out (cs : CSOUND) (i : Z) (mn mx : Q) (n k : Z)
    (x : Curved.GENDYX) :
  let y := snd (Curved.gendyx_sample cs i mn mx n k x) in
  (exists v, Curved.out y = aset (Curved.out x) n v) /\
  length (Curved.memamp y) = length (Curved.memamp x) /\
  length (Curved.memdur y) = length (Curved.memdur x).
Proof.
  unfold Curved.gendyx_sample, Curved.gendyx_advance.
  destruct (Qle_bool 1 (Curved.phase x)); cbn; unfold aset;
    rewrite ?length_insert; (split; [eexists; reflexivity|tauto]).
Qed.

Lemma gendyx_loop_frame (cs : CSOUND) (i : Z) (mn mx : Q) (cnt n : nat)
    (k : Z) (x : Curved.GENDYX) :
  let y := Curved.gendyx_loop cs i mn mx cnt (Z.of_nat n) k x in
  length (Curved.out y) = length (Curved.out x) /\
  length (Curved.memamp y) = length (Curved.memamp x) /\
  length (Curved.memdur y) = length (Curved.memdur x) /\
  forall j : nat, (j < n \/ n + cnt <= j)%nat -> Curved.out y !! j = Curved.out x !! j.
Proof.
  revert n k x. induction cnt as [|cnt IH]; intros n k x; [cbn; tauto|].
  cbn [Curved.gendyx_loop]. cbv zeta.
  pose proof (gendyx_sample_out cs i mn mx (Z.of_nat n) k x) as S1. cbv zeta in S1.
  destruct (Curved.gendyx_sample cs i mn mx (Z.of_nat n) k x) as [k1 x1].
  cbn [snd] in S1. destruct S1 as ([v Ev] & B1 & C1).
  replace (Z.of_nat n + 1)%Z with (Z.of_nat (S n)) by lia.
  specialize (IH (S n) k1 x1). cbv zeta in IH. destruct IH as (A & B & C & D).
  rewrite A, B, C, B1, C1, Ev. unfold aset. rewrite length_insert.
  repeat split. intros j Hj. rewrite D by lia. rewrite Ev. unfold aset.
  rewrite Nat2Z.id. apply list_lookup_insert_ne. lia.
Qed.

(** A block of either variant keeps the lengths of the output buffer and
    of the two arrays of the store, writes no slot of the buffer from
    index [ksmps] on, and changes nothing at all when [ksmps] is not
    positive. *)
Theorem block_frame (cs : CSOUND) (p : Linear.GENDY) (x : Curved.GENDYX) :
  (let q := Linear.gendy_process_arate cs p in
   length (Linear.out q) = length (Linear.out p) /\
   length (Linear.memamp q) = length (Linear.memamp p) /\
   length (Linear.memdur q) = length (Linear.memdur p) /\
   (forall j : nat, (Z.to_nat (ksmps cs) <= j)%nat ->
      Linear.out q !! j = Linear.out p !! j) /\
   ((ksmps cs <= 0)%Z -> q = p)) /\
  (let y := Curved.gendyx_process_arate cs x in
   length (Curved.out y) = length (Curved.out x) /\
   length (Curved.memamp y) = length (Curved.memamp x) /\
   length (Curved.memdur y) = length (Curved.memdur x) /\
   (forall j : nat, (Z.to_nat (ksmps cs) <= j)%nat ->
      Curved.out y !! j = Curved.out x !! j) /\
   ((ksmps cs <= 0)%Z -> y = x)).
Proof.
  split; cbv zeta.
  - unfold Linear.gendy_process_arate.
    match goal with |- context [Linear.gendy_loop cs ?i ?mn ?mx ?c ?n ?k p] =>
      destruct (gendy_loop_lengths cs i mn mx c n k p) as (A & B & C) end.
    rewrite A, B, C. repeat split.
    + intros j Hj. change 0%Z with (Z.of_nat 0).
      apply gendy_loop_out_above. lia.
    + intros Hk. replace (Z.to_nat (ksmps cs)) with 0%nat by lia. reflexivity.
  - unfold Curved.gendyx_process_arate. change 0%Z with (Z.of_nat 0).
    match goal with |- context [Curved.gendyx_loop cs ?i ?mn ?mx ?c _ ?k x] =>
      destruct (gendyx_loop_frame cs i mn mx c 0 k x) as (A & B & C & D) end.
    rewrite A, B, C. repeat split.
    + intros j Hj. apply D. lia.
    + intros Hk. replace (Z.to_nat (ksmps cs)) with 0%nat by lia. reflexivity.
Qed.

End BlockFrame.

(** ** A sample inside a segment *)

Section IdleSample.
Context `{Host}.

(** A sample of either variant that starts with the phase below 1 makes
    no advance and no draw: it writes the interpolation of the current
    state to its slot, adds the speed to the phase, and leaves the
    register, the index, the store, the two amplitudes, the duration and
    the speed as they were (and the active count as it was handed in). *)
Theorem sample_inside_segment (cs : CSOUND) (i : Z) (mn mx : Q) (n k : Z)
    (p : Linear.GENDY) (x : Curved.GENDYX) :
  Linear.phase p < 1 -> Curved.phase x < 1 ->
  (let s := Linear.gendy_sample cs i mn mx n k p in
   fst s = k /\
   Linear.out (snd s)
   = aset (Linear.out p) n
       (Linear.kamp p * ((1 - Linear.phase p) * Linear.amp p
                         + Linear.phase p * Linear.nextamp p)) /\
   (Linear.rand (snd s), Linear.index (snd s),
    Linear.memamp (snd s), Linear.memdur (snd s))
   = (Linear.rand p, Linear.index p, Linear.memamp p, Linear.memdur p) /\
   (Linear.amp (snd s), Linear.nextamp (snd s),
    Linear.dur (snd s), Linear.speed (snd s))
   = (Linear.amp p, Linear.nextamp p, Linear.dur p, Linear.speed p) /\
   Linear.phase (snd s) = Linear.phase p + Linear.speed p) /\
  (let s := Curved.gendyx_sample cs i mn mx n k x in
   let up := Curved.clamp_curve (Curved.kcurveup x) in
   let down := Curved.clamp_curve (Curved.kcurvedown x) in
   fst s = k /\
   Curved.out (snd s)
   = aset (Curved.out x) n
       (Curved.kamp x *
        (Curved.amp x
         + POWER (Curved.phase x) (Curved.gendyx_curve up down x)
           * (Curved.nextamp x - Curved.amp x))) /\
   (Curved.rand (snd s), Curved.index (snd s),
    Curved.memamp (snd s), Curved.memdur (snd s))
   = (Curved.rand x, Curved.index x, Curved.memamp x, Curved.memdur x) /\
   (Curved.amp (snd s), Curved.nextamp (snd s),
    Curved.dur (snd s), Curved.speed (snd s))
   = (Curved.amp x, Curved.nextamp x, Curved.dur x, Curved.speed x) /\
   Curved.phase (snd s) = Curved.phase x + Curved.speed x).
Proof.
  intros Hp Hx. split; cbv zeta.
  - unfold Linear.gendy_sample.
    rewrite (gendy_advance_idle cs i mn mx k p Hp). repeat split.
  - unfold Curved.gendyx_sample, Curved.gendyx_advance.
    destruct (Qle_bool 1 (Curved.phase x)) eqn:E;
      [apply Qle_bool_iff in E; lra|]. repeat split.
Qed.

End IdleSample.

(** ** The sample and the speed *)

Section SampleBounds.
Context `{Host}.

(** With the phase within [0, 1] and both amplitudes within [-1, 1], the
    sample of the linear variant is no larger in magnitude than the output
    scale; the same holds for the curved variant where the power is within
    [0, 1]. *)
Theorem sample_within_scale (p : Linear.GENDY) (x : Curved.GENDYX) (up down : Q) :
  0 <= Linear.phase p -> Linear.phase p <= 1 ->
  amp_bounds (Linear.amp p) -> amp_bounds (Linear.nextamp p) ->
  0 <= POWER (Curved.phase x) (Curved.gendyx_curve up down x) ->
  POWER (Curved.phase x) (Curved.gendyx_curve up down x) <= 1 ->
  amp_bounds (Curved.amp x) -> amp_bounds (Curved.nextamp x) ->
  Qabs (Linear.gendy_interp p) <= Qabs (Linear.kamp p) /\
  Qabs (Curved.gendyx_interp up down x) <= Qabs (Curved.kamp x).
Proof.
  intros P0 P1 [A0 A1] [N0 N1] W0 W1 [B0 B1] [M0 M1].
  assert (forall k c : Q, -1 <= c -> c <= 1 -> Qabs (k * c) <= Qabs k) as scale.
  { intros k c C0 C1. rewrite Qabs_Qmult.
    assert (Qabs c <= 1) as Hc by (apply Qabs_Qle_condition; split; lra).
    pose proof (Qabs_nonneg k) as Hk. pose proof (Qabs_nonneg c) as Hc0.
    assert (0 <= Qabs k * (1 - Qabs c)) by (apply Qmult_le_0_compat; lra).
    lra. }
  split.
  - unfold Linear.gendy_interp. apply scale; nra.
  - unfold Curved.gendyx_interp.
    set (w := POWER (Curved.phase x) (Curved.gendyx_curve up down x)) in *.
    apply scale; nra.
Qed.

Lemma trunc_nonpos (x : Q) : x <= 0 -> trunc x = (- Qfloor (- x))%Z.
Proof.
  intros Hx. assert (trunc (- x) = Qfloor (- x)) as A
    by (apply trunc_nonneg; lra).
  rewrite trunc_opp in A. lia.
Qed.

(** On an argument that is not positive [fmod] is not positive. *)
Lemma FMOD_nonpos (x y : Q) : 0 < y -> x <= 0 -> FMOD x y <= 0.
Proof.
  intros Hy Hx. unfold FMOD.
  assert (x / y <= 0) as Hq.
  { assert (0 <= (- x) / y) by (apply Qle_shift_div_l; lra).
    assert ((- x) / y == - (x / y)) by (field; lra). lra. }
  rewrite (trunc_nonpos _ Hq).
  pose proof (Qfloor_le (- (x / y))) as Hl.
  rewrite inject_Z_opp. set (m := inject_Z (Qfloor (- (x / y)))) in *.
  assert (x == (x / y) * y) as E by (field; lra).
  assert (m * y <= (- (x / y)) * y) by (apply Qmult_le_compat_r; lra). lra.
Qed.

(** The duration mirror never gives a negative duration. *)
Lemma mirror_dur_nonneg (d : Q) : 0 <= mirror_dur d.
Proof.
  unfold mirror_dur. case_ltb 1 d; [|case_ltb d 0]; [| |lra].
  - destruct (FMOD_range d 2) as [_ B]; lra.
  - destruct (Qlt_le_dec (d + 2) 0) as [Hneg | Hpos].
    + pose proof (FMOD_nonpos (d + 2) 2). lra.
    + destruct (FMOD_range (d + 2) 2) as [_ B]; lra.
Qed.

(** The speed an advance sets is the frequency taken between the two
    bounds at the new duration, times the sample period, times the active
    count it resolved.  The new duration is never negative.  With equal
    bounds the speed is [minfreq x onedsr x count] whatever the duration;
    with [minfreq <= maxfreq], a sample period that is not negative and a
    capacity of at least 1 it is never below that value. *)
Theorem advance_speed (cs : CSOUND) (i : Z) (mn mx : Q) (k : Z) (p : Linear.GENDY) :
  let q := snd (Linear.gendy_breakpoint cs i mn mx k p) in
  let k1 := inject_Z (clamp_knum i k) in
  Linear.speed q = (mn + (mx - mn) * Linear.dur q) * onedsr cs * k1 /\
  0 <= Linear.dur q /\
  (mn == mx -> Linear.speed q == mn * onedsr cs * k1) /\
  (mn <= mx -> 0 <= onedsr cs -> (1 <= i)%Z ->
   mn * onedsr cs * k1 <= Linear.speed q).
Proof.
  cbv zeta. cbn [Linear.gendy_breakpoint snd Linear.speed Linear.dur].
  fold (clamp_knum i k).
  match goal with |- context [mirror_dur ?c] =>
    pose proof (mirror_dur_nonneg c) as D0; set (d := mirror_dur c) in * end.
  split; [reflexivity|]. split; [exact D0|]. split.
  - intros E. rewrite E. ring.
  - intros Hm Ho Hi.
    destruct (clamp_knum_range i k Hi) as ([K1 _] & _).
    assert (1 <= inject_Z (clamp_knum i k)) as Hk
      by (change 1 with (inject_Z 1); now rewrite <- Zle_Qle).
    set (kq := inject_Z (clamp_knum i k)) in *.
    assert (0 <= onedsr cs * kq) by (apply Qmult_le_0_compat; lra).
    assert (0 <= ((mx - mn) * d) * (onedsr cs * kq))
      by (repeat apply Qmult_le_0_compat; lra).
    lra.
Qed.

End SampleBounds.

(** ** The exponents and the state of the curved variant *)

Section CurvedState.
Context `{Host}.

Lemma same_state_linear_of (g : Linear.GENDY) (x : Curved.GENDYX) :
  same_state g x ->
  g = {| Linear.out := Linear.out g;
         Linear.kamp := Curved.kamp x; Linear.ampdist := Curved.ampdist x;
         Linear.durdist := Curved.durdist x;
         Linear.adpar := Curved.adpar x; Linear.ddpar := Curved.ddpar x;
         Linear.minfreq := Curved.minfreq x; Linear.maxfreq := Curved.maxfreq x;
         Linear.ampscl := Curved.ampscl x; Linear.durscl := Curved.durscl x;
         Linear.initcps := Curved.initcps x; Linear.knum := Curved.knum x;
         Linear.phase := Curved.phase x; Linear.amp := Curved.amp x;
         Linear.nextamp := Curved.nextamp x;
         Linear.dur := Curved.dur x; Linear.speed := Curved.speed x;
         Linear.index := Curved.index x; Linear.rand := Curved.rand x;
         Linear.memamp := Curved.memamp x; Linear.memdur := Curved.memdur x |}.
Proof.
  unfold same_state, LinearHost.controls, CurvedHost.controls.
  destruct g. cbn. intros (Ec & Ei & Es & Er & Em).
  injection Ec as -> -> -> -> -> -> -> -> -> ->.
  injection Es as -> -> -> -> ->. injection Er as -> ->. injection Em as -> ->.
  subst. reflexivity.
Qed.

Lemma gendy_sample_same_state (cs : CSOUND) (i : Z) (mn mx : Q) (n k : Z)
    (g : Linear.GENDY) (x : Curved.GENDYX) :
  same_state g x ->
  fst (Linear.gendy_sample cs i mn mx n k g)
  = fst (Curved.gendyx_sample cs i mn mx n k x) /\
  same_state (snd (Linear.gendy_sample cs i mn mx n k g))
             (snd (Curved.gendyx_sample cs i mn mx n k x)).
Proof.
  intros S. rewrite (same_state_linear_of g x S).
  unfold Linear.gendy_sample, Curved.gendyx_sample,
    Linear.gendy_advance, Curved.gendyx_advance. cbn [Linear.phase].
  destruct (Qle_bool 1 (Curved.phase x)); (split; [reflexivity|]);
    unfold same_state; cbn; tauto.
Qed.

Lemma gendy_loop_same_state (cs : CSOUND) (i : Z) (mn mx : Q) (cnt : nat) (n k : Z)
    (g : Linear.GENDY) (x : Curved.GENDYX) :
  same_state g x ->
  same_state (Linear.gendy_loop cs i mn mx cnt n k g)
             (Curved.gendyx_loop cs i mn mx cnt n k x).
Proof.
  revert n k g x. induction cnt as [|cnt IH]; intros n k g x S; [exact S|].
  cbn [Linear.gendy_loop Curved.gendyx_loop].
  destruct (gendy_sample_same_state cs i mn mx n k g x S) as [Ek S1].
  destruct (Linear.gendy_sample cs i mn mx n k g) as [k1 g1].
  destruct (Curved.gendyx_sample cs i mn mx n k x) as [k2 x1].
  cbn [fst snd] in Ek, S1. subst k2. now apply IH.
Qed.

Lemma init_fill_same_state (c : nat) (j : Z) (g : Linear.GENDY) (x : Curved.GENDYX) :
  same_state g x -> same_state (Linear.init_fill c j g) (Curved.init_fill c j x).
Proof.
  revert j g x. induction c as [|c IH]; intros j g x S; [exact S|].
  cbn [Linear.init_fill Curved.init_fill]. cbv zeta. apply IH.
  rewrite (same_state_linear_of g x S). unfold same_state. cbn. tauto.
Qed.

(** Whatever the two exponents, the curved variant goes through the states
    of the linear one: the init functions leave the same generator and the
    same host seed, and a block run on the same generator leaves the same
    generator (argument cells, phase, amplitudes, duration, speed, index,
    register and store); the exponents reach the samples only. *)
Theorem curved_states_are_linear (cs : CSOUND) (g : Linear.GENDY) (x : Curved.GENDYX) :
  same_state g x ->
  same_state (Linear.gendy_process_arate cs g) (Curved.gendyx_process_arate cs x) /\
  same_state (snd (Linear.gendy_init cs g)) (snd (Curved.gendyx_init cs x)) /\
  fst (Linear.gendy_init cs g) = fst (Curved.gendyx_init cs x).
Proof.
  intros S. split; [|split; [|reflexivity]].
  - unfold Linear.gendy_process_arate, Curved.gendyx_process_arate.
    assert (Linear.initcps g = Curved.initcps x /\
            Linear.minfreq g = Curved.minfreq x /\
            Linear.maxfreq g = Curved.maxfreq x /\ Linear.knum g = Curved.knum x)
      as (-> & -> & -> & ->)
      by (rewrite (same_state_linear_of g x S); cbn; tauto).
    now apply gendy_loop_same_state.
  - destruct (linear_of_init cs x) as [_ E].
    assert (snd (Linear.gendy_init cs g)
            = snd (Linear.gendy_init cs
                     {| Linear.out := Linear.out g;
                        Linear.kamp := Curved.kamp x;
                        Linear.ampdist := Curved.ampdist x;
                        Linear.durdist := Curved.durdist x;
                        Linear.adpar := Curved.adpar x;
                        Linear.ddpar := Curved.ddpar x;
                        Linear.minfreq := Curved.minfreq x;
                        Linear.maxfreq := Curved.maxfreq x;
                        Linear.ampscl := Curved.ampscl x;
                        Linear.durscl := Curved.durscl x;
                        Linear.initcps := Curved.initcps x;
                        Linear.knum := Curved.knum x;
                        Linear.phase := Curved.phase x;
                        Linear.amp := Curved.amp x;
                        Linear.nextamp := Curved.nextamp x;
                        Linear.dur := Curved.dur x;
                        Linear.speed := Curved.speed x;
                        Linear.index := Curved.index x;
                        Linear.rand := Curved.rand x;
                        Linear.memamp := Curved.memamp x;
                        Linear.memdur := Curved.memdur x |})) as Eg
      by (now rewrite <- (same_state_linear_of g x S)).
    rewrite Eg. unfold Linear.gendy_init, Curved.gendyx_init. cbn [snd]. cbv zeta.
    cbn [Linear.initcps Linear.out Linear.kamp Linear.ampdist Linear.durdist
         Linear.adpar Linear.ddpar Linear.minfreq Linear.maxfreq Linear.ampscl
         Linear.durscl Linear.knum Linear.dur].
    apply init_fill_same_state. unfold same_state. cbn. tauto.
Qed.

Lemma gendyx_sample_clamped (cs : CSOUND) (i : Z) (mn mx : Q) (n k : Z)
    (up down : Q) (x : Curved.GENDYX) :
  Curved.gendyx_sample cs i mn mx n k (with_curves up down x)
  = Curved.gendyx_sample cs i mn mx n k
      (with_curves (Curved.clamp_curve up) (Curved.clamp_curve down) x).
Proof.
  unfold Curved.gendyx_sample, Curved.gendyx_advance.
  cbn [with_curves Curved.phase].
  destruct (Qle_bool 1 (Curved.phase x));
    unfold Curved.gendyx_emit, Curved.gendyx_interp, Curved.gendyx_curve;
    cbn; rewrite !clamp_curve_idem; reflexivity.
Qed.

(** A negative exponent acts as the exponent 0: a block of at least one
    sample run with the exponents [up] and [down] leaves what it leaves
    when run with each negative one replaced by 0 - the same samples, the
    same state, and the same exponent cells. *)
Theorem negative_exponent_is_zero (cs : CSOUND) (up down : Q) (x : Curved.GENDYX) :
  (0 < ksmps cs)%Z ->
  Curved.gendyx_process_arate cs (with_curves up down x)
  = Curved.gendyx_process_arate cs
      (with_curves (Curved.clamp_curve up) (Curved.clamp_curve down) x) /\
  (up < 0 -> Curved.clamp_curve up = 0) /\
  (0 <= up -> Curved.clamp_curve up = up).
Proof.
  intros Hk. split.
  - unfold Curved.gendyx_process_arate.
    cbn [with_curves Curved.initcps Curved.minfreq Curved.maxfreq Curved.knum].
    destruct (Z.to_nat (ksmps cs)) as [|c] eqn:E; [lia|].
    cbn [Curved.gendyx_loop]. now rewrite gendyx_sample_clamped.
  - unfold Curved.clamp_curve. split; intros; case_ltb up 0; try reflexivity; lra.
Qed.

End CurvedState.

(** ** The samples of the curved variant at the exponent 1 *)

Section UnitExponentSamples.
Context `{Host}.




End UnitExponentSamples.

(** ** The amplitudes under the uniform perturbation *)

Lemma aref_amp_bounds (l : list Q) (i : Z) :
  Forall amp_bounds l -> amp_bounds (aref l i).
Proof.
  intros F. unfold aref. destruct (l !! Z.to_nat i) as [v|] eqn:E; cbn.
  - exact (proj1 (Forall_lookup _ _) F _ _ E).
  - unfold amp_bounds. lra.
Qed.

Section UniformRun.
Context `{Host}.
Hypothesis rand31 : host31.

Lemma gendy_sample_uniform (cs : CSOUND) (i : Z) (mn mx : Q) (n k : Z)
    (p : Linear.GENDY) :
  uniform_amp_inputs (LinearHost.controls p) -> amp_store_bounds p ->
  amp_store_bounds (snd (Linear.gendy_sample cs i mn mx n k p)).
Proof.
  intros (Ka & Sa0 & Sa1) (Fa & Ba & Bn).
  cbn [LinearHost.controls c_ampdist c_ampscl] in *.
  unfold Linear.gendy_sample, Linear.gendy_advance.
  destruct (Qle_bool 1 (Linear.phase p));
    [|unfold amp_store_bounds; cbn; tauto].
  unfold amp_store_bounds.
  cbn [Linear.gendy_breakpoint Linear.gendy_emit snd Linear.memamp Linear.amp
       Linear.nextamp].
  rewrite (gendy_distribution_uniform_cell _ _ _ Ka).
  destruct (bipolar_strict _ (rand31 (Linear.rand p))) as [R0 R1].
  match goal with |- context [aref (Linear.memamp p) ?j] =>
    destruct (aref_amp_bounds _ j Fa) as [X0 X1];
    set (a0 := aref (Linear.memamp p) j) in * end.
  set (a := Linear.ampscl p) in *.
  set (d := bipolar (csoundRand31 (Linear.rand p))) in *.
  assert (-5 <= a0 + a * d) as C by nra.
  destruct (mirror_amp_range _ C) as [M0 M1].
  split; [|split; [exact Bn|split; assumption]].
  unfold aset. apply Forall_insert; [exact Fa|split; assumption].
Qed.

Lemma gendy_loop_uniform (cs : CSOUND) (i : Z) (mn mx : Q) (cnt : nat) (n k : Z)
    (p : Linear.GENDY) :
  uniform_amp_inputs (LinearHost.controls p) -> amp_store_bounds p ->
  amp_store_bounds (Linear.gendy_loop cs i mn mx cnt n k p).
Proof.
  revert n k p. induction cnt as [|cnt IH]; intros n k p U B; [exact B|].
  cbn [Linear.gendy_loop]. cbv zeta.
  pose proof (gendy_sample_uniform cs i mn mx n k p U B) as B1.
  destruct (gendy_sample_cells cs i mn mx n k p) as [C _].
  destruct (Linear.gendy_sample cs i mn mx n k p) as [k1 p1]. cbn [snd] in *.
  apply IH; [now rewrite C|exact B1].
Qed.

(** With a host generator of 31-bit values, as long as every block has an
    amplitude kind cell of the uniform kind and an amplitude scale within
    [-4, 4], the stored amplitudes and the two amplitudes of the instance
    never leave [-1, 1]: they are within it after any number of blocks run
    from an instance within it, and so after any number of blocks from
    initialization (whatever the durations do). *)
Theorem uniform_run_keeps_amplitudes (cs : CSOUND) (ks : list Controls)
    (p p0 : Linear.GENDY) :
  Forall uniform_amp_inputs ks -> amp_store_bounds p ->
  amp_store_bounds (snd (LinearHost.perform cs ks p)) /\
  amp_store_bounds (snd (LinearHost.perform (fst (Linear.gendy_init cs p0)) ks
                           (snd (Linear.gendy_init cs p0)))).
Proof.
  assert (forall c (l : list Controls) (q : Linear.GENDY),
            Forall uniform_amp_inputs l -> amp_store_bounds q ->
            amp_store_bounds (snd (LinearHost.perform c l q))) as L.
  { intros c l. induction l as [|k l IH]; intros q U B; [exact B|].
    cbn [LinearHost.perform]. cbv zeta.
    apply Forall_cons in U. destruct U as [Uk Ul].
    set (q1 := Linear.gendy_process_arate c (LinearHost.set_controls k q)).
    specialize (IH q1 Ul).
    destruct (LinearHost.perform c l q1) as [o q2]. cbn [snd] in *.
    apply IH. subst q1. unfold Linear.gendy_process_arate.
    apply gendy_loop_uniform.
    - destruct k. exact Uk.
    - unfold amp_store_bounds in *. cbn. exact B. }
  intros U B. split; [now apply L|]. apply L; [exact U|].
  destruct (gendy_init_store_bounds rand31 cs p0) as [Fa _].
  destruct (gendy_init_state cs p0) as (_ & Ea & En & _).
  unfold amp_store_bounds. rewrite Ea, En. unfold amp_bounds.
  repeat split; try assumption; lra.
Qed.

End UniformRun.

(** ** The generator at speed 0 and the first sample of the curved variant *)

Section SegmentSamples.
Context `{Host}.

Lemma gendy_loop_frozen (cs : CSOUND) (i : Z) (mn mx : Q) (cnt n : nat) (k : Z)
    (p : Linear.GENDY) :
  Linear.speed p == 0 -> Linear.phase p < 1 ->
  let q := Linear.gendy_loop cs i mn mx cnt (Z.of_nat n) k p in
  (Linear.rand q, Linear.index q, Linear.memamp q, Linear.memdur q)
  = (Linear.rand p, Linear.index p, Linear.memamp p, Linear.memdur p) /\
  (Linear.amp q, Linear.nextamp q, Linear.dur q, Linear.speed q)
  = (Linear.amp p, Linear.nextamp p, Linear.dur p, Linear.speed p) /\
  Linear.phase q == Linear.phase p /\
  forall j : nat, (j < cnt)%nat -> (n + j < length (Linear.out p))%nat ->
    exists ph : Q,
      ph == Linear.phase p /\
      Linear.out q !! (n + j)%nat
      = Some (Linear.kamp p *
              ((1 - ph) * Linear.amp p + ph * Linear.nextamp p)).
Proof.
  revert n k p. induction cnt as [|cnt IH]; intros n k p Hs Hp.
  - cbn. split; [reflexivity|]. split; [reflexivity|]. split; [reflexivity|].
    intros j Hj. lia.
  - cbn [Linear.gendy_loop]. cbv zeta. unfold Linear.gendy_sample.
    rewrite (gendy_advance_idle cs i mn mx k p Hp).
    replace (Z.of_nat n + 1)%Z with (Z.of_nat (S n)) by lia.
    specialize (IH (S n) k (Linear.gendy_emit (Z.of_nat n) p)).
    cbv zeta in IH.
    cbn [Linear.gendy_emit Linear.speed Linear.phase Linear.rand Linear.index
         Linear.memamp Linear.memdur Linear.amp Linear.nextamp Linear.dur
         Linear.kamp Linear.out] in IH.
    destruct IH as (A & B & C & D); [exact Hs|lra|].
    split; [exact A|]. split; [exact B|]. split; [rewrite C; lra|].
    intros j Hj Hl. destruct j as [|j].
    + exists (Linear.phase p). split; [reflexivity|].
      rewrite Nat.add_0_r in *. rewrite gendy_loop_out_below by lia.
      cbn [Linear.gendy_emit Linear.out]. unfold aset. rewrite Nat2Z.id.
      now apply list_lookup_insert_eq.
    + destruct (D j) as (ph & Eph & Eo).
      * lia.
      * unfold aset. rewrite length_insert. lia.
      * exists ph. split; [rewrite Eph; lra|].
        replace (n + S j)%nat with (S n + j)%nat by lia. exact Eo.
Qed.

(** At speed 0 the generator stands still.  From an instance with the
    speed 0 and the phase below 1, a block makes no advance and no draw:
    the register, the index, the store, the two amplitudes, the duration
    and the speed are unchanged, the phase keeps its value, and every
    sample of the block that lies in the buffer is the interpolation at
    that phase.  As the speed is set by an advance only, this goes on for
    any number of blocks, whatever the control inputs become. *)
Theorem frozen_generator (cs : CSOUND) (ks : list Controls) (p : Linear.GENDY) :
  Linear.speed p == 0 -> Linear.phase p < 1 ->
  (let q := Linear.gendy_process_arate cs p in
   (Linear.rand q, Linear.index q, Linear.memamp q, Linear.memdur q)
   = (Linear.rand p, Linear.index p, Linear.memamp p, Linear.memdur p) /\
   (Linear.amp q, Linear.nextamp q, Linear.dur q, Linear.speed q)
   = (Linear.amp p, Linear.nextamp p, Linear.dur p, Linear.speed p) /\
   Linear.phase q == Linear.phase p /\
   forall j : nat, (Z.of_nat j < ksmps cs)%Z -> (j < length (Linear.out p))%nat ->
     exists ph : Q,
       ph == Linear.phase p /\
       Linear.out q !! j
       = Some (Linear.kamp p *
               ((1 - ph) * Linear.amp p + ph * Linear.nextamp p))) /\
  (let q := snd (LinearHost.perform cs ks p) in
   (Linear.rand q, Linear.index q, Linear.memamp q, Linear.memdur q)
   = (Linear.rand p, Linear.index p, Linear.memamp p, Linear.memdur p) /\
   (Linear.amp q, Linear.nextamp q, Linear.dur q, Linear.speed q)
   = (Linear.amp p, Linear.nextamp p, Linear.dur p, Linear.speed p) /\
   Linear.phase q == Linear.phase p).
Proof.
  intros Hs Hp. split; cbv zeta.
  - unfold Linear.gendy_process_arate. change 0%Z with (Z.of_nat 0).
    match goal with |- context [Linear.gendy_loop cs ?a ?b ?c ?cnt _ ?kk p] =>
      destruct (gendy_loop_frozen cs a b c cnt 0 kk p Hs Hp) as (A & B & C & D) end.
    split; [exact A|]. split; [exact B|]. split; [exact C|].
    intros j Hj Hl. apply (D j); lia.
  - revert p Hs Hp. induction ks as [|k ks IH]; intros p Hs Hp.
    + cbn. repeat split; reflexivity.
    + cbn [LinearHost.perform]. cbv zeta.
      set (p1 := Linear.gendy_process_arate cs (LinearHost.set_controls k p)).
      assert ((Linear.rand p1, Linear.index p1, Linear.memamp p1, Linear.memdur p1)
              = (Linear.rand p, Linear.index p, Linear.memamp p, Linear.memdur p) /\
              (Linear.amp p1, Linear.nextamp p1, Linear.dur p1, Linear.speed p1)
              = (Linear.amp p, Linear.nextamp p, Linear.dur p, Linear.speed p) /\
              Linear.phase p1 == Linear.phase p) as (A1 & B1 & C1).
      { subst p1. unfold Linear.gendy_process_arate. change 0%Z with (Z.of_nat 0).
        match goal with
        | |- context [Linear.gendy_loop cs ?a ?b ?c ?cnt _ ?kk ?pp] =>
            destruct (gendy_loop_frozen cs a b c cnt 0 kk pp) as (A & B & C & _);
              [exact Hs|exact Hp|]
        end.
        rewrite A, B, C. cbn. repeat split; reflexivity. }
      specialize (IH p1).
      destruct (LinearHost.perform cs ks p1) as [o q2]. cbn [snd] in *.
      injection B1 as Ea En Ed Es.
      destruct IH as (A2 & B2 & C2); [rewrite Es; exact Hs|rewrite C1; exact Hp|].
      rewrite A2, B2, A1, Ea, En, Ed, Es. repeat split. rewrite C2. exact C1.
Qed.

(** After initialization the first sample of the curved variant is the
    output scale times 0 to the exponent in use times the new amplitude:
    it is 0 where the power of 0 is 0 at both clamped exponents (as the
    C library's is at every positive exponent). *)
Theorem curved_first_sample (cs : CSOUND) (x : Curved.GENDYX) (k : Controls)
    (up down : Q) :
  (0 < ksmps cs)%Z -> (0 < length (Curved.out x))%nat ->
  POWER 0 (Curved.clamp_curve up) == 0 ->
  POWER 0 (Curved.clamp_curve down) == 0 ->
  exists v,
    Curved.out (Curved.gendyx_process_arate (fst (Curved.gendyx_init cs x))
                  (CurvedHost.set_controls k up down
                     (snd (Curved.gendyx_init cs x)))) !! 0%nat = Some v /\
    v == 0.
Proof.
  intros Hk Hout Pu Pd.
  set (y := CurvedHost.set_controls k up down (snd (Curved.gendyx_init cs x))).
  assert (Curved.phase y = 1 /\ Curved.nextamp y = 0 /\
          Curved.out y = Curved.out x /\
          Curved.kcurveup y = up /\ Curved.kcurvedown y = down)
    as (Qp & Qn & Qo & Qu & Qd).
  { destruct (linear_of_init cs x) as [_ E].
    destruct (gendy_init_state cs (linear_of x)) as (A & _ & B & C).
    rewrite <- E in A, B, C. subst y. cbn in *. tauto. }
  unfold Curved.gendyx_process_arate.
  replace (ksmps (fst (Curved.gendyx_init cs x))) with (ksmps cs) by reflexivity.
  destruct (Z.to_nat (ksmps cs)) as [|cnt] eqn:Ek; [lia|].
  cbn [Curved.gendyx_loop]. cbv zeta.
  set (i := trunc (Curved.initcps y)). set (kn := trunc (Curved.knum y)).
  set (c1 := fst (Curved.gendyx_init cs x)).
  assert (Curved.gendyx_sample c1 i (Curved.minfreq y) (Curved.maxfreq y) 0 kn y
          = (fst (Curved.gendyx_breakpoint c1 i (Curved.minfreq y)
                    (Curved.maxfreq y) kn y),
             Curved.gendyx_emit 0
               (snd (Curved.gendyx_breakpoint c1 i (Curved.minfreq y)
                       (Curved.maxfreq y) kn y)))) as Es.
  { unfold Curved.gendyx_sample, Curved.gendyx_advance. rewrite Qp.
    change (Qle_bool 1 1) with true. cbv iota. reflexivity. }
  rewrite Es. change (0 + 1)%Z with (Z.of_nat 1).
  match goal with |- context [Curved.gendyx_loop c1 ?a ?b ?c cnt _ ?d ?e] =>
    destruct (gendyx_loop_frame c1 a b c cnt 1 d e) as (_ & _ & _ & D) end.
  rewrite D by lia.
  cbn [Curved.gendyx_emit Curved.out Curved.gendyx_breakpoint snd].
  unfold aset. eexists. split.
  - apply list_lookup_insert_eq. rewrite Qo. exact Hout.
  - unfold Curved.gendyx_interp, Curved.gendyx_curve.
    cbn [Curved.kamp Curved.phase Curved.amp Curved.nextamp Curved.kcurveup
         Curved.kcurvedown].
    rewrite Qp, Qn, Qu, Qd. change (1 - 1) with 0.
    match goal with |- context [if ?b then _ else _] => destruct b end;
      [rewrite Pu|rewrite Pd]; ring.
Qed.

End SegmentSamples.

(** ** Closed runs on the concrete host *)

#[local] Existing Instance example_host.

(** C2. The duration mirror takes the candidate 2.5 to 1.5.  With the
    duration perturbation fixed at 1 (kind 6, parameter 1) and a duration
    scale of 2, the first advance after initialization has a candidate
    between 2 and 3 and leaves a duration above 1 in [dur] and in the
    store. *)
Theorem C2_duration_mirror_leaves_range :
  mirror_dur 2.5 == 1.5 /\
  (let r := Linear.gendy_init one_sample_csound
              (fresh_gendy 1 (passthrough_controls 1 2)) in
   let q := Linear.gendy_process_arate (fst r) (snd r) in
   1 < Linear.dur q /\
   exists d, Linear.memdur q !! 0%nat = Some d /\ 1 < d).
Proof.
  split; [reflexivity|]. cbv zeta. split; [reflexivity|].
  eexists. split; [vm_compute; reflexivity|reflexivity].
Qed.

(** C3. The amplitude mirror takes the candidate -6 to -2.  With the
    amplitude perturbation fixed at 1 (kind 6, parameter 1) and an
    amplitude scale of -6, the first advance after initialization has a
    candidate between -7 and -5 and leaves an amplitude below -1 in
    [nextamp] and in the store. *)
Theorem C3_amplitude_mirror_leaves_range :
  mirror_amp (-6) == -2 /\
  (let r := Linear.gendy_init one_sample_csound
              (fresh_gendy 1 (passthrough_controls (-6) 1)) in
   let q := Linear.gendy_process_arate (fst r) (snd r) in
   Linear.nextamp q < -1 /\
   exists a, Linear.memamp q !! 0%nat = Some a /\ a < -1).
Proof.
  split; [reflexivity|]. cbv zeta. split; [reflexivity|].
  eexists. split; [vm_compute; reflexivity|reflexivity].
Qed.

(** C1, as stated, fails.  With both frequency bounds at three times the
    sample rate the first advance sets the speed to 3, and the second
    sample of the block starts at phase 3.  The block of two samples makes
    two advances and no more (four draws from the register the init
    function left), ends at phase 2 + 3, and its second sample is
    interpolated at phase 2, beyond the next amplitude. *)
Lemma C1_second_sample_at_phase_two :
  (let r := Linear.gendy_init dyadic_csound
              (fresh_gendy 1 dyadic_fast_controls) in
   let q := Linear.gendy_process_arate (fst r) (snd r) in
   Linear.rand q = draw 4 (Linear.rand (snd r)) /\
   Linear.speed q == 3 /\ Linear.phase q == 5 /\
   ~ Linear.phase q - Linear.speed q < 1 /\
   exists v, Linear.out q !! 1%nat = Some v /\
     v == Linear.kamp q * ((1 - 2) * Linear.amp q + 2 * Linear.nextamp q)) /\
  (let r := Curved.gendyx_init dyadic_csound
              (fresh_gendyx 1 dyadic_fast_controls 1 1) in
   let y := Curved.gendyx_process_arate (fst r) (snd r) in
   Curved.rand y = draw 4 (Curved.rand (snd r)) /\
   Curved.speed y == 3 /\ Curved.phase y == 5 /\
   ~ Curved.phase y - Curved.speed y < 1 /\
   exists v, Curved.out y !! 1%nat = Some v /\
     v == Curved.kamp y *
          (Curved.amp y + POWER 2 1 * (Curved.nextamp y - Curved.amp y))).
Proof.
  split; cbv zeta; (split; [vm_compute; reflexivity|]);
    (split; [reflexivity|]); (split; [reflexivity|]);
    (split; [vm_compute; discriminate|]);
    eexists; (split; [vm_compute; reflexivity|reflexivity]).
Qed.

(** C1 (amended) on the sample that follows the first one of that run,
    which starts at phase 3. *)
Lemma C1_sample_advances_once_witness :
  let r := Linear.gendy_init dyadic_csound (fresh_gendy 1 dyadic_fast_controls) in
  let p := snd (Linear.gendy_sample (fst r) 1 98304 98304 0 1 (snd r)) in
  let rx := Curved.gendyx_init dyadic_csound
              (fresh_gendyx 1 dyadic_fast_controls 1 1) in
  let x := snd (Curved.gendyx_sample (fst rx) 1 98304 98304 0 1 (snd rx)) in
  (Linear.rand (snd (Linear.gendy_sample (fst r) 1 98304 98304 1 1 p))
   = csoundRand31 (csoundRand31 (Linear.rand p)) /\
   Linear.phase (snd (Linear.gendy_sample (fst r) 1 98304 98304 1 1 p)) == 5) /\
  (Curved.rand (snd (Curved.gendyx_sample (fst r) 1 98304 98304 1 1 x))
   = csoundRand31 (csoundRand31 (Curved.rand x)) /\
   Curved.phase (snd (Curved.gendyx_sample (fst r) 1 98304 98304 1 1 x)) == 5).
Proof.
  cbv zeta.
  set (r := Linear.gendy_init dyadic_csound (fresh_gendy 1 dyadic_fast_controls)).
  set (p := snd (Linear.gendy_sample (fst r) 1 98304 98304 0 1 (snd r))).
  set (rx := Curved.gendyx_init dyadic_csound
               (fresh_gendyx 1 dyadic_fast_controls 1 1)).
  set (x := snd (Curved.gendyx_sample (fst rx) 1 98304 98304 0 1 (snd rx))).
  assert (1 <= Linear.phase p) as Hp by (vm_compute; discriminate).
  assert (1 <= Curved.phase x) as Hx by (vm_compute; discriminate).
  pose proof (C1_sample_advances_once (fst r) 1 98304 98304 1 1 p x Hp Hx) as W.
  cbv zeta in W. destruct W as [(_ & _ & A & B & _) (_ & _ & C & D & _)].
  split; (split; [assumption|]).
  - rewrite B. reflexivity.
  - rewrite D. reflexivity.
Defined.

(** C4, as stated, fails.  A capacity argument of 0 comes back from the
    init function as 12, and a negative exponent comes back from the first
    block of the curved variant as 0. *)
Lemma C4_clamps_reach_the_cells :
  (let p := fresh_gendy 0 example_controls in
   Linear.initcps (snd (Linear.gendy_init example_csound p)) == 12 /\
   ~ Linear.initcps (snd (Linear.gendy_init example_csound p)) == Linear.initcps p) /\
  (let x := fresh_gendyx 12 example_controls (-1) 2 in
   let r := Curved.gendyx_init example_csound x in
   Curved.kcurveup (Curved.gendyx_process_arate (fst r) (snd r)) == 0 /\
   ~ Curved.kcurveup (Curved.gendyx_process_arate (fst r) (snd r))
     == Curved.kcurveup x).
Proof.
  split; cbv zeta; (split; [reflexivity|]); vm_compute; discriminate.
Qed.

(** C6 at kind 7. *)
Lemma C6_unknown_kind_is_uniform_witness :
  gendy_distribution 7 0.5 12345 = gendy_distribution 0 0.5 12345 /\
  gendy_distribution 0 0.5 12345 = bipolar 12345.
Proof. apply (C6_unknown_kind_is_uniform 7 0.5 12345). right. reflexivity. Defined.

(** The power of the concrete host is the identity at exponent 1. *)
Lemma pow_int_one (v : Q) : pow_int v 1 == v.
Proof. reflexivity. Qed.



(** C10 on the concrete host: capacity 12, the control inputs changed
    between initialization and the first block. *)
Lemma C10_first_sample_is_zero_witness :
  exists v,
    Linear.out
      (Linear.gendy_process_arate
         (fst (Linear.gendy_init example_csound (fresh_gendy 12 example_controls)))
         (LinearHost.set_controls fast_controls
            (snd (Linear.gendy_init example_csound
                    (fresh_gendy 12 example_controls))))) !! 0%nat = Some v /\
    v == 0.
Proof.
  apply (C10_first_sample_is_zero example_csound
           (fresh_gendy 12 example_controls) fast_controls).
  - reflexivity.
  - cbn. lia.
Defined.

(** ** The further properties on the concrete host *)

(** Closed comparisons of rationals, by computation. *)
Ltac qdec := vm_compute; repeat split; first [reflexivity | discriminate].

Lemma lehmer31_range (s : Z) : (0 <= lehmer31 s < 2147483648)%Z.
Proof.
  unfold lehmer31.
  pose proof (Z.mod_pos_bound (742938285 * s) 2147483647 ltac:(lia)). lia.
Qed.

Lemma example_host31 : host31.
Proof. exact lehmer31_range. Qed.

(** The uniform perturbation at the kind cell 0.5 and the draw 12345. *)
Lemma uniform_cell_perturbation_witness :
  -1 < gendy_distribution (trunc 0.5) 1 12345 /\
  gendy_distribution (trunc 0.5) 1 12345 < 1.
Proof.
  apply (uniform_cell_perturbation 0.5 1 12345).
  - left. qdec.
  - lia.
Defined.

(** The external signal at the kind cell 6.5 with the shape parameter 3. *)
Lemma external_cell_perturbation_witness :
  0.0001 <= gendy_distribution (trunc 6.5) 3 12345 /\
  gendy_distribution (trunc 6.5) 3 12345 <= 1.
Proof.
  destruct (external_cell_perturbation 6.5 3 12345) as (A & B & _);
    [qdec|qdec|]. split; [exact A|exact B].
Defined.

Lemma mirror_amp_idempotent_witness :
  amp_bounds (mirror_amp (-4.5)) /\
  mirror_amp (mirror_amp (-4.5)) = mirror_amp (-4.5).
Proof. apply (mirror_amp_idempotent (-4.5)). qdec. Defined.

Lemma mirror_dur_idempotent_witness :
  dur_bounds (mirror_dur 1.75) /\ mirror_dur (mirror_dur 1.75) = mirror_dur 1.75.
Proof. apply (mirror_dur_idempotent 1.75). left. qdec. Defined.

Lemma mirrors_reflect_witness :
  mirror_amp 2.75 == 2 - 2.75 /\ mirror_dur 1.75 == 2 - 1.75.
Proof. apply (mirrors_reflect 2.75 1.75); qdec. Defined.

(** Initialization on the concrete host, capacity argument 12. *)
Lemma init_store_bounds_witness :
  (let q := snd (Linear.gendy_init example_csound
                   (fresh_gendy 12 example_controls)) in
   Forall amp_bounds (Linear.memamp q) /\ Forall dur_bounds (Linear.memdur q) /\
   Linear.amp q = 0 /\ Linear.nextamp q = 0) /\
  (let y := snd (Curved.gendyx_init example_csound
                   (fresh_gendyx 12 example_controls 2 0.5)) in
   Forall amp_bounds (Curved.memamp y) /\ Forall dur_bounds (Curved.memdur y) /\
   Curved.amp y = 0 /\ Curved.nextamp y = 0).
Proof.
  exact (init_store_bounds example_csound (fresh_gendy 12 example_controls)
           (fresh_gendyx 12 example_controls 2 0.5) example_host31).
Defined.

(** An advance on a store of 12 points with 5 of them requested, from
    index 4. *)
Lemma advance_index_in_store_witness :
  let p := snd (gendy_breakpoints example_csound 12 220 440 4 5
                  (snd (Linear.gendy_init example_csound
                          (fresh_gendy 12 example_controls)))) in
  let q := snd (Linear.gendy_breakpoint example_csound 12 220 440 5 p) in
  Linear.index p = 4%Z /\ (0 <= Linear.index q < 5)%Z.
Proof.
  cbv zeta. split; [reflexivity|].
  destruct (advance_index_in_store example_csound 12 220 440 5
              (snd (gendy_breakpoints example_csound 12 220 440 4 5
                      (snd (Linear.gendy_init example_csound
                              (fresh_gendy 12 example_controls)))))
              (snd (Curved.gendyx_init example_csound
                      (fresh_gendyx 12 example_controls 2 0.5))))
    as ((_ & E & _ & A & _) & _).
  - lia.
  - vm_compute. discriminate.
  - vm_compute. discriminate.
  - rewrite E in A by lia. exact A.
Defined.

(** Seven advances over five active points, from index 0. *)
Lemma advances_cycle_witness :
  Linear.index
    (snd (gendy_breakpoints example_csound 12 220 440 7 5
            (snd (Linear.gendy_init example_csound
                    (fresh_gendy 12 example_controls)))))
  = 2%Z.
Proof.
  rewrite (advances_cycle example_csound 12 220 440 7 5).
  - reflexivity.
  - lia.
  - vm_compute. discriminate.
  - lia.
Defined.


Example started_gendy_phase :
  0 < Linear.phase started_gendy /\ Linear.phase started_gendy < 0.25 /\
  0 < Linear.speed started_gendy /\ Linear.speed started_gendy < 0.125.
Proof. qdec. Qed.

(** The third sample of each instance, which starts below phase 1. *)
Lemma sample_inside_segment_witness :
  Linear.rand (snd (Linear.gendy_sample example_csound 12 220 440 0 12
                      started_gendy))
  = Linear.rand started_gendy /\
  Curved.rand (snd (Curved.gendyx_sample example_csound 12 220 440 0 12
                      (started_gendyx 2 3)))
  = Curved.rand (started_gendyx 2 3).
Proof.
  assert (Linear.phase started_gendy < 1) as Hp by qdec.
  assert (Curved.phase (started_gendyx 2 3) < 1) as Hx by qdec.
  pose proof (sample_inside_segment example_csound 12 220 440 0 12
                started_gendy (started_gendyx 2 3) Hp Hx) as W.
  cbv zeta in W. destruct W as [(_ & _ & A & _) (_ & _ & B & _)].
  split.
  - apply (f_equal (fun t => fst (fst (fst t)))) in A. cbn [fst] in A. exact A.
  - apply (f_equal (fun t => fst (fst (fst t)))) in B. cbn [fst] in B. exact B.
Defined.

(** A sample of each variant in mid-segment, the exponents 2 and 3. *)
Lemma sample_within_scale_witness :
  Qabs (Linear.gendy_interp started_gendy) <= Qabs (Linear.kamp started_gendy) /\
  Qabs (Curved.gendyx_interp 2 3 (started_gendyx 2 3))
  <= Qabs (Curved.kamp (started_gendyx 2 3)).
Proof.
  apply (sample_within_scale started_gendy (started_gendyx 2 3) 2 3);
    try qdec; unfold amp_bounds; qdec.
Defined.

(** The speed after an advance on 5 of 12 points, from initialization:
    with the bounds 220 and 440, and with both bounds at 330. *)
Lemma advance_speed_witness :
  let p := snd (Linear.gendy_init example_csound (fresh_gendy 12 example_controls)) in
  220 * onedsr example_csound * 5
  <= Linear.speed (snd (Linear.gendy_breakpoint example_csound 12 220 440 5 p)) /\
  Linear.speed (snd (Linear.gendy_breakpoint example_csound 12 330 330 5 p))
  == 330 * onedsr example_csound * 5.
Proof.
  cbv zeta.
  pose proof (advance_speed example_csound 12 220 440 5
                (snd (Linear.gendy_init example_csound
                        (fresh_gendy 12 example_controls)))) as A.
  pose proof (advance_speed example_csound 12 330 330 5
                (snd (Linear.gendy_init example_csound
                        (fresh_gendy 12 example_controls)))) as B.
  cbv zeta in A, B.
  destruct A as (_ & _ & _ & A). destruct B as (_ & _ & B & _).
  split.
  - apply A; [qdec|qdec|lia].
  - apply B. reflexivity.
Defined.

(** The two variants after their first block, the exponents 2 and 0.5. *)
Lemma curved_states_are_linear_witness :
  same_state (Linear.gendy_process_arate example_csound started_gendy)
             (Curved.gendyx_process_arate example_csound (started_gendyx 2 0.5)).
Proof.
  assert (same_state started_gendy (started_gendyx 2 0.5)) as S
    by (unfold same_state; vm_compute; repeat split).
  exact (proj1 (curved_states_are_linear example_csound started_gendy
                  (started_gendyx 2 0.5) S)).
Defined.

(** The exponents -1 and -2.5 against 0 and 0. *)
Lemma negative_exponent_is_zero_witness :
  Curved.gendyx_process_arate example_csound
    (with_curves (-1) (-2.5) (started_gendyx 2 0.5))
  = Curved.gendyx_process_arate example_csound
      (with_curves (Curved.clamp_curve (-1)) (Curved.clamp_curve (-2.5))
         (started_gendyx 2 0.5)).
Proof.
  assert (0 < ksmps example_csound)%Z as K by reflexivity.
  exact (proj1 (negative_exponent_is_zero example_csound (-1) (-2.5)
                  (started_gendyx 2 0.5) K)).
Defined.

Lemma example_controls_uniform :
  uniform_amp_inputs example_controls /\ uniform_amp_inputs dyadic_fast_controls.
Proof. split; (split; [left; qdec|qdec]). Qed.

(** Three blocks of two samples from initialization at 32768 samples per
    second: each of the six samples makes an advance. *)
Lemma uniform_run_keeps_amplitudes_witness :
  let ks := [dyadic_fast_controls; example_controls; dyadic_fast_controls] in
  let p0 := fresh_gendy 12 example_controls in
  amp_store_bounds
    (snd (LinearHost.perform dyadic_csound ks
            (snd (Linear.gendy_init dyadic_csound p0)))) /\
  amp_store_bounds
    (snd (LinearHost.perform (fst (Linear.gendy_init dyadic_csound p0)) ks
            (snd (Linear.gendy_init dyadic_csound p0)))).
Proof.
  cbv zeta. apply uniform_run_keeps_amplitudes.
  - exact example_host31.
  - destruct example_controls_uniform as [A B].
    constructor; [exact B|]. constructor; [exact A|].
    constructor; [exact B|]. constructor.
  - unfold amp_store_bounds, amp_bounds. vm_compute.
    repeat constructor; discriminate.
Defined.

(** The six samples of that run draw twelve times. *)
Example uniform_run_draws :
  let r := Linear.gendy_init dyadic_csound (fresh_gendy 12 example_controls) in
  Linear.rand
    (snd (LinearHost.perform (fst r)
            [dyadic_fast_controls; example_controls; dyadic_fast_controls]
            (snd r)))
  = draw 12 (Linear.rand (snd r)).
Proof. vm_compute. reflexivity. Qed.

Example stopped_gendy_state :
  Linear.speed stopped_gendy == 0 /\ Linear.phase stopped_gendy == 0.
Proof. qdec. Qed.

(** Three more blocks of the stopped instance, the frequency bounds raised
    again: the register has not moved. *)
Lemma frozen_generator_witness :
  let ks := [dyadic_fast_controls; example_controls; dyadic_fast_controls] in
  Linear.rand (snd (LinearHost.perform example_csound ks stopped_gendy))
  = Linear.rand stopped_gendy.
Proof.
  cbv zeta.
  assert (Linear.speed stopped_gendy == 0) as Hs by qdec.
  assert (Linear.phase stopped_gendy < 1) as Hp by qdec.
  pose proof (frozen_generator example_csound
                [dyadic_fast_controls; example_controls; dyadic_fast_controls]
                stopped_gendy Hs Hp) as W.
  cbv zeta in W. destruct W as (_ & A & _).
  apply (f_equal (fun t => fst (fst (fst t)))) in A. cbn [fst] in A. exact A.
Defined.

(** The first sample of the curved variant with the exponents 2 and 3. *)
Lemma curved_first_sample_witness :
  exists v,
    Curved.out
      (Curved.gendyx_process_arate
         (fst (Curved.gendyx_init example_csound
                 (fresh_gendyx 12 example_controls 0 0)))
         (CurvedHost.set_controls example_controls 2 3
            (snd (Curved.gendyx_init example_csound
                    (fresh_gendyx 12 example_controls 0 0))))) !! 0%nat
    = Some v /\
    v == 0.
Proof.
  apply (curved_first_sample example_csound
           (fresh_gendyx 12 example_controls 0 0) example_controls 2 3).
  - reflexivity.
  - cbn. lia.
  - reflexivity.
  - reflexivity.
Defined.
